(** * react-wordcloud: the layout retry orchestrator of [src/index.tsx]

    A shallow embedding of the [Wordcloud] component's render pipeline
    (word selection, rotation, formatting, the shrink-and-retry layout
    loop, and the debounced scheduling of the whole), followed by the
    properties of that pipeline.

    JavaScript numbers are IEEE 754 binary64 values: they are embedded
    as Rocq's primitive [float]s, whose operations are specified by
    [FloatAxioms] against [SpecFloat]. Integer quantities that the code
    only counts with (array lengths, the attempt counter, millisecond
    timestamps) are embedded in [Z] and [nat]. *)

From Stdlib Require Import ZArith Lia Bool List Sorting.Sorted Sorting.Permutation.
From Stdlib Require Import Floats.
From stdpp Require Import base option list gmap strings pretty.

Local Open Scope Z_scope.
#[local] Set Warnings "-inexact-float".

(* ===================================================================== *)
(** * Part I. Definitions                                                 *)
(* ===================================================================== *)

(** ** JavaScript numbers *)

Module JS.

Definition number := float.

(** [x < y], [x > y], [x >= y] as JavaScript evaluates them: every
    comparison with a NaN operand is false. *)
Definition lt (x y : number) : bool := (x <? y)%float.
Definition gt (x y : number) : bool := (y <? x)%float.
Definition ge (x y : number) : bool := (y <=? x)%float.
Definition le (x y : number) : bool := (x <=? y)%float.

(** ToBoolean on a number: [0], [-0] and [NaN] are falsy. *)
Definition truthy (x : number) : bool :=
  negb (PrimFloat.is_nan x || PrimFloat.is_zero x).

(** [Math.max(a, b)] (ECMA-262, 21.3.2.24): NaN if either argument is
    NaN; [+0] counts as larger than [-0]. *)
Definition Math_max (a b : number) : number :=
  if PrimFloat.is_nan a || PrimFloat.is_nan b then PrimFloat.nan
  else if (a <? b)%float
            || (PrimFloat.is_zero a && PrimFloat.is_zero b
                && PrimFloat.get_sign a && negb (PrimFloat.get_sign b))
       then b else a.

(** The integer part of a finite number, rounding toward zero; [0] for
    NaN and the infinities (the first steps of ToInt32). *)
Definition truncate (x : number) : Z :=
  match Prim2SF x with
  | S754_finite s m e =>
      let magnitude := Z.shiftl (Zpos m) e in
      if s then - magnitude else magnitude
  | _ => 0
  end.

(** ToInt32 (ECMA-262, 7.1.6): truncate, then wrap into the signed
    32-bit range. *)
Definition ToInt32 (x : number) : Z :=
  let int32bit := (truncate x) mod 2 ^ 32 in
  if int32bit >=? 2 ^ 31 then int32bit - 2 ^ 32 else int32bit.

(** A signed 32-bit integer read back as a number (exact). *)
Definition of_int32 (z : Z) : number :=
  if z <? 0 then (- PrimFloat.of_uint63 (Uint63.of_Z (- z)))%float
  else PrimFloat.of_uint63 (Uint63.of_Z z).

(** [~~x]: two bitwise NOTs, that is ToInt32 read back as a number. *)
Definition double_tilde (x : number) : number := of_int32 (ToInt32 x).

End JS.


(** ** Data model ([./types]) *)

Definition Pair (A : Type) : Type := (A * A)%type.
Definition MinMaxPair : Type := Pair JS.number.

Inductive Scale := Linear | Log | Sqrt.
Inductive Spiral := Archimedean | Rectangular.

(** A word is an object with the keys [text] and [value]; [rest] holds
    whatever further own properties the caller put on it. *)
Record Word := {
  text : string;
  value : JS.number;
  rest : list (string * string);
}.

(** The object literal that [formatWords] builds: the spread of the word
    followed by the six layout properties. *)
Record FormattedWord := {
  fw_text : string;
  fw_value : JS.number;
  fw_rest : list (string * string);
  fw_padding : JS.number;
  fw_rotate : JS.number;
  fw_size : JS.number;
  fw_font : string;
  fw_style : string;
  fw_weight : string;
}.

(** What the layout engine hands to [onDone]: the words it managed to
    place, each with its coordinates. *)
Record PlacedWord := {
  pw_word : FormattedWord;
  pw_x : JS.number;
  pw_y : JS.number;
}.

Record Options := {
  colors : list string;
  deterministic : bool;
  enableTooltip : bool;
  fontFamily : string;
  fontSizes : MinMaxPair;
  fontStyle : string;
  fontWeight : string;
  padding : JS.number;
  rotations : option JS.number;
  rotationAngles : MinMaxPair;
  scale : Scale;
  spiral : Spiral;
  transitionDuration : JS.number;
  renderDebounce : Z;          (* milliseconds *)
  batchSize : JS.number;
}.

(** [OptionsProp]: every key of [Options] is optional. *)
Record OptionsProp := {
  colors_opt : option (list string);
  deterministic_opt : option bool;
  enableTooltip_opt : option bool;
  fontFamily_opt : option string;
  fontSizes_opt : option MinMaxPair;
  fontStyle_opt : option string;
  fontWeight_opt : option string;
  padding_opt : option JS.number;
  rotations_opt : option JS.number;
  rotationAngles_opt : option MinMaxPair;
  scale_opt : option Scale;
  spiral_opt : option Spiral;
  transitionDuration_opt : option JS.number;
  renderDebounce_opt : option Z;
  batchSize_opt : option JS.number;
}.

Definition no_options : OptionsProp :=
  Build_OptionsProp None None None None None None None None None None None
    None None None None.

Record Callbacks := { getWordTooltip : Word -> string }.
Record CallbacksProp := { getWordTooltip_opt : option (Word -> string) }.

(** ** The seeded random source ([seedrandom])

    A generator is the infinite sequence of its draws together with the
    number of draws made so far; [random()] returns the next one. *)
Record Random := {
  draws : nat -> JS.number;
  drawn : nat;
}.

Definition random (g : Random) : JS.number * Random :=
  (draws g (drawn g), {| draws := draws g; drawn := S (drawn g) |}).

(** ** Collaborators that live outside [index.tsx]

    [./utils], [./hooks] and [seedrandom] are taken as parameters: the
    orchestrator only calls them. *)
Class Collaborators := {
  (** the d3 selection that [useResponsiveSVGSelection] produces *)
  Selection : Type;
  (** [getDefaultColors()] *)
  getDefaultColors : list string;
  (** [getText] is imported but not used by the pipeline; [Number]'s
      string conversion, used by the default tooltip *)
  number_to_string : JS.number -> string;
  (** [seedrandom(seed)]; [None] is the call without a seed *)
  seedrandom : option string -> Random;
  (** [rotate(rotations, rotationAngles, random)]: the configured
      rotation strategy; it may draw from the generator *)
  rotate : JS.number -> MinMaxPair -> Random -> JS.number * Random;
  (** [getFontScale(words, fontSizes, scale)] *)
  getFontScale : list Word -> MinMaxPair -> Scale -> JS.number -> JS.number;
}.

(** ** Module constants and defaults *)

Definition MAX_LAYOUT_ATTEMPTS : Z := 10.
Definition SHRINK_FACTOR : JS.number := 0.95%float.

Section Defaults.
Context `{Collaborators}.

Definition defaultCallbacks : Callbacks :=
  {| getWordTooltip := fun w =>
       (text w ++ " (" ++ number_to_string (value w) ++ ")")%string |}.

Definition defaultOptions : Options := {|
  colors := getDefaultColors;
  deterministic := false;
  enableTooltip := true;
  fontFamily := "times new roman";
  fontSizes := (4%float, 32%float);
  fontStyle := "normal";
  fontWeight := "normal";
  padding := 1%float;
  rotations := None;
  rotationAngles := ((-90)%float, 90%float);
  scale := Sqrt;
  spiral := Rectangular;
  transitionDuration := 600%float;
  renderDebounce := 100;
  batchSize := 200%float;
|}.

(** [{ ...defaultCallbacks, ...callbacks }] *)
Definition mergedCallbacks (callbacks : CallbacksProp) : Callbacks :=
  {| getWordTooltip :=
       default (getWordTooltip defaultCallbacks) (getWordTooltip_opt callbacks) |}.

(** [{ ...defaultOptions, ...options }]: a key present in [options]
    wins, an absent one keeps the default. *)
Definition mergedOptions (options : OptionsProp) : Options := {|
  colors := default (colors defaultOptions) (colors_opt options);
  deterministic := default (deterministic defaultOptions) (deterministic_opt options);
  enableTooltip := default (enableTooltip defaultOptions) (enableTooltip_opt options);
  fontFamily := default (fontFamily defaultOptions) (fontFamily_opt options);
  fontSizes := default (fontSizes defaultOptions) (fontSizes_opt options);
  fontStyle := default (fontStyle defaultOptions) (fontStyle_opt options);
  fontWeight := default (fontWeight defaultOptions) (fontWeight_opt options);
  padding := default (padding defaultOptions) (padding_opt options);
  rotations :=
    match rotations_opt options with
    | Some n => Some n
    | None => rotations defaultOptions
    end;
  rotationAngles := default (rotationAngles defaultOptions) (rotationAngles_opt options);
  scale := default (scale defaultOptions) (scale_opt options);
  spiral := default (spiral defaultOptions) (spiral_opt options);
  transitionDuration :=
    default (transitionDuration defaultOptions) (transitionDuration_opt options);
  renderDebounce := default (renderDebounce defaultOptions) (renderDebounce_opt options);
  batchSize := default (batchSize defaultOptions) (batchSize_opt options);
|}.
End Defaults.

(** ** Word selection

    [words.concat().sort((x, y) => descending(x.value, y.value)).slice(0, maxWords)] *)

(** [descending] of d3-array. *)
Definition descending (a b : JS.number) : JS.number :=
  if JS.lt b a then (-1)%float
  else if JS.gt b a then 1%float
  else if JS.ge b a then 0%float
  else PrimFloat.nan.

Section ArrayMethods.
Context {A : Type}.

(** SortCompare (ECMA-262, 23.1.3.30.2) for a given [comparefn]: a NaN
    result counts as [+0]. *)
Definition SortCompare (comparefn : A -> A -> JS.number) (x y : A) : JS.number :=
  let v := comparefn x y in
  if PrimFloat.is_nan v then 0%float else v.

(** [Array.prototype.sort] is a stable sort: of two elements the
    earlier one stays first unless [comparefn] puts it strictly after
    the later one. It is embedded as the insertion sort with that
    behaviour. *)
Fixpoint sort_insert (comparefn : A -> A -> JS.number) (x : A) (sorted : list A)
  : list A :=
  match sorted with
  | [] => [x]
  | y :: sorted' =>
      if JS.le (SortCompare comparefn x y) 0%float
      then x :: y :: sorted'
      else y :: sort_insert comparefn x sorted'
  end.

Fixpoint Array_sort (comparefn : A -> A -> JS.number) (l : list A) : list A :=
  match l with
  | [] => []
  | x :: l' => sort_insert comparefn x (Array_sort comparefn l')
  end.

(** [Array.prototype.slice(0, end)] for an integral [end]: a negative
    [end] counts from the back. *)
Definition Array_slice0 (endIndex : Z) (l : list A) : list A :=
  let len := Z.of_nat (length l) in
  let final := if endIndex <? 0 then Z.max (len + endIndex) 0 else Z.min endIndex len in
  take (Z.to_nat final) l.
End ArrayMethods.

Definition by_value_descending (x y : Word) : JS.number :=
  descending (value x) (value y).

Definition sortedWords (words : list Word) (maxWords : Z) : list Word :=
  Array_slice0 maxWords (Array_sort by_value_descending words).

(** *** The same chain on array objects

    Arrays are objects in a store; [concat] and [slice] allocate a new
    array, [sort] rearranges the receiver in place and returns it. *)
Abbreviation ArrayRef := nat.
Abbreviation Store := (gmap nat (list Word)).

Definition store_alloc (contents : list Word) (st : Store) : ArrayRef * Store :=
  let r := fresh (dom st) in (r, <[r := contents]> st).

Definition store_concat (a : ArrayRef) (st : Store) : option (ArrayRef * Store) :=
  contents ← st !! a; Some (store_alloc contents st).

Definition store_sort (comparefn : Word -> Word -> JS.number) (a : ArrayRef) (st : Store)
  : option (ArrayRef * Store) :=
  contents ← st !! a; Some (a, <[a := Array_sort comparefn contents]> st).

Definition store_slice0 (endIndex : Z) (a : ArrayRef) (st : Store)
  : option (ArrayRef * Store) :=
  contents ← st !! a; Some (store_alloc (Array_slice0 endIndex contents) st).

Definition store_sortedWords (words : ArrayRef) (maxWords : Z) (st : Store)
  : option (ArrayRef * Store) :=
  '(copy, st1) ← store_concat words st;
  '(sorted, st2) ← store_sort by_value_descending copy st1;
  store_slice0 maxWords sorted st2.

(** ** Rotation and formatting *)

(** The default rotation function: [(~~(random() * 6) - 3) * 30]. *)
Definition default_rotation (r : JS.number) : JS.number :=
  ((JS.double_tilde (r * 6) - 3) * 30)%float.

(** The keys that the object literal of [formatWords] sets itself. *)
Definition layout_keys : list string :=
  ["padding"; "rotate"; "size"; "font"; "style"; "weight"]%string.

Section Formatting.
Context `{Collaborators}.

(** [rotateWord]: the configured strategy when [rotations] is truthy,
    the default rotation function otherwise. *)
Definition rotateWord (o : Options) (g : Random) : JS.number * Random :=
  match rotations o with
  | Some n =>
      if JS.truthy n then rotate n (rotationAngles o) g
      else let '(r, g') := random g in (default_rotation r, g')
  | None => let '(r, g') := random g in (default_rotation r, g')
  end.

(** The object that the arrow function of [words.map] returns for
    the word [d], given what [rotateWord()] returned:
    [{ ...d, padding, rotate, size, font, style, weight }]. The six keys
    written after the spread replace whatever the word itself held
    under these names, so such keys do not survive among the rest. *)
Definition formatted (o : Options) (fontScale : JS.number -> JS.number)
           (angle : JS.number) (d : Word) : FormattedWord := {|
  fw_text := text d;
  fw_value := value d;
  fw_rest := List.filter (fun kv => negb (existsb (String.eqb kv.1) layout_keys)) (rest d);
  fw_padding := padding o;
  fw_rotate := angle;
  fw_size := fontScale (value d);
  fw_font := fontFamily o;
  fw_style := fontStyle o;
  fw_weight := fontWeight o;
|}.

(** [words.map(d => ...)], with the generator threaded through the
    calls of [rotateWord]. *)
Fixpoint format_each (o : Options) (fontScale : JS.number -> JS.number)
         (words : list Word) (g : Random) : list FormattedWord * Random :=
  match words with
  | [] => ([], g)
  | d :: words' =>
      let '(angle, g1) := rotateWord o g in
      let '(others, g2) := format_each o fontScale words' g1 in
      (formatted o fontScale angle d :: others, g2)
  end.

Definition formatWords (o : Options) (words : list Word) (fontSizes : MinMaxPair)
           (g : Random) : list FormattedWord * Random :=
  let fontScale := getFontScale words fontSizes (scale o) in
  format_each o fontScale words g.
End Formatting.

(** ** The layout engine boundary ([./cloud]) and what a run does to the world *)

(** Modelled from the spec: [createCloud] and the [CloudHandlers] object
    it returns are not part of [index.tsx]. A handle is the configuration
    it was created with (here the words, and the two variables [fontSizes]
    and [attempts] that its [onDone] closes over) and a state: [start()]
    sets it going, [stop()] halts it for good and may be called at any
    time, and [onDone] is called once, with the words that were placed,
    when a started and not stopped handle finishes. *)
Inductive HandleState := Started | Stopped | Completed.

Record CloudHandlers := {
  cloud_attempts : Z;
  cloud_fontSizes : MinMaxPair;
  cloud_words : list FormattedWord;
  cloud_state : HandleState;
}.

(** The calls a run makes on its collaborators, in the order made. *)
Inductive Effect :=
| CreateCloud (attempts : Z) (fontSizes : MinMaxPair) (words : list FormattedWord)
    (* [createCloud({...})] followed by [layout.start()] *)
| Done (attempts : Z) (computedWords : list PlacedWord)
    (* the engine calling [onDone(computedWords)] *)
| LayoutStop (attempts : Z)                     (* [layout.stop()] *)
| ConsoleWarn (message : string)                (* [console.warn(...)] *)
| RenderCall (computedWords : list PlacedWord). (* [render(selection, computedWords, ...)] *)

(** The template literal of the warning: the count, then the remedies. *)
Definition remedies : string :=
  "Consider: (1) Increasing the container/component size. (2) Lowering the max font size. (3) Limiting the rotation angles.".

Definition warning_message (unplaced attempts : Z) : string :=
  ("Unable to layout " ++ pretty unplaced ++ " word(s) after " ++ pretty attempts
   ++ " attempts.  " ++ remedies)%string.

Section Orchestration.
Context `{Collaborators}.

(** One invocation of the debounced function: its six arguments as far
    as the closures keep them, the constants [random] (a stateful
    generator) and [sortedWords], the variable [layout], and the calls
    made so far. *)
Record Run := {
  run_selection : Selection;
  run_options : Options;
  run_callbacks : Callbacks;
  run_size : Pair JS.number;
  run_sortedWords : list Word;
  run_random : Random;
  run_layout : option CloudHandlers;
  run_effects : list Effect;
}.

Definition with_random (g : Random) (r : Run) : Run :=
  Build_Run (run_selection r) (run_options r) (run_callbacks r) (run_size r)
    (run_sortedWords r) g (run_layout r) (run_effects r).

Definition with_layout (l : option CloudHandlers) (r : Run) : Run :=
  Build_Run (run_selection r) (run_options r) (run_callbacks r) (run_size r)
    (run_sortedWords r) (run_random r) l (run_effects r).

Definition emit (e : Effect) (r : Run) : Run :=
  Build_Run (run_selection r) (run_options r) (run_callbacks r) (run_size r)
    (run_sortedWords r) (run_random r) (run_layout r) (run_effects r ++ [e]).

Definition with_state (st : HandleState) (h : CloudHandlers) : CloudHandlers :=
  Build_CloudHandlers (cloud_attempts h) (cloud_fontSizes h) (cloud_words h) st.

(** [layout.stop()] on whatever handle [layout] currently holds. *)
Definition layout_stop (r : Run) : Run :=
  match run_layout r with
  | Some h => emit (LayoutStop (cloud_attempts h)) (with_layout (Some (with_state Stopped h)) r)
  | None => r
  end.

(** [draw(fontSizes, attempts)]: format the sorted words, create the
    cloud, keep its handle in [layout], start it. The body of [onDone]
    is [onDone] below. *)
Definition draw (fontSizes : MinMaxPair) (attempts : Z) (r : Run) : Run :=
  let '(words, g) := formatWords (run_options r) (run_sortedWords r) fontSizes (run_random r) in
  emit (CreateCloud attempts fontSizes words)
    (with_layout
       (Some {| cloud_attempts := attempts; cloud_fontSizes := fontSizes;
                cloud_words := words; cloud_state := Started |})
       (with_random g r)).

(** The [onDone(computedWords)] callback of the handle that
    [draw(fontSizes, attempts)] created. *)
Definition onDone (fontSizes : MinMaxPair) (attempts : Z)
           (computedWords : list PlacedWord) (r : Run) : Run :=
  if negb (Nat.eqb (length (run_sortedWords r)) (length computedWords))
     && (attempts <=? MAX_LAYOUT_ATTEMPTS)
  then
    let r1 :=
      if attempts =? MAX_LAYOUT_ATTEMPTS
      then emit (ConsoleWarn
                   (warning_message
                      (Z.of_nat (length (run_sortedWords r))
                       - Z.of_nat (length computedWords))
                      attempts)) r
      else r in
    let minFontSize := JS.Math_max (fst fontSizes * SHRINK_FACTOR)%float 1%float in
    let maxFontSize := JS.Math_max (snd fontSizes * SHRINK_FACTOR)%float minFontSize in
    draw (minFontSize, maxFontSize) (attempts + 1) (layout_stop r1)
  else
    emit (RenderCall computedWords) r.

(** Modelled from the spec: the engine finishing the attempt in flight.
    It has drawn from the shared generator (leaving it as [g]), placed
    [computedWords], and calls [onDone]; a handle that is not running
    calls nothing. *)
Definition engine_completes (computedWords : list PlacedWord) (g : Random) (r : Run) : Run :=
  match run_layout r with
  | Some h =>
      match cloud_state h with
      | Started =>
          onDone (cloud_fontSizes h) (cloud_attempts h) computedWords
            (emit (Done (cloud_attempts h) computedWords)
               (with_layout (Some (with_state Completed h)) (with_random g r)))
      | _ => r
      end
  | None => r
  end.

(** The function handed to [debounce]: everything from the
    destructuring of [mergedOptions] to [draw(fontSizes)]. *)
Definition pipeline (selection : Selection) (mergedOptions : Options)
           (mergedCallbacks : Callbacks) (size : Pair JS.number)
           (words : list Word) (maxWords : Z) : Run :=
  let random :=
    if deterministic mergedOptions
    then seedrandom (Some "deterministic"%string)
    else seedrandom None in
  draw (fontSizes mergedOptions) 1
    {| run_selection := selection; run_options := mergedOptions;
       run_callbacks := mergedCallbacks; run_size := size;
       run_sortedWords := sortedWords words maxWords;
       run_random := random; run_layout := None; run_effects := [] |}.

(** The function that [pipeline] returns:
    [() => { if (layout) { layout.stop(); } }]. *)
Definition cleanup (r : Run) : Run := layout_stop r.

(** *** A run carried to its end

    The layout engine as an oracle: what it reports, and how it leaves
    the generator, for the attempt numbered [attempts] started on
    [words]. *)
Definition Engine : Type :=
  Z -> list FormattedWord -> Random -> list PlacedWord * Random.

Definition in_flight (r : Run) : option CloudHandlers :=
  match run_layout r with
  | Some h => match cloud_state h with Started => Some h | _ => None end
  | None => None
  end.

(** Let every attempt finish, one after the other, until no attempt is
    in flight; [None] when [fuel] attempts were not enough. *)
Fixpoint layout_loop (fuel : nat) (engine : Engine) (r : Run) : option Run :=
  match in_flight r, fuel with
  | None, _ => Some r
  | Some _, O => None
  | Some h, S fuel' =>
      let '(computedWords, g) :=
        engine (cloud_attempts h) (cloud_words h) (run_random r) in
      layout_loop fuel' engine (engine_completes computedWords g r)
  end.

(** What was asked of the engine, what it answered, what was warned,
    what was rendered. *)
Definition attempts_made (r : Run) : list (Z * MinMaxPair * list FormattedWord) :=
  omap (fun e => match e with
                 | CreateCloud a fs ws => Some (a, fs, ws)
                 | _ => None
                 end) (run_effects r).

Definition results (r : Run) : list (list PlacedWord) :=
  omap (fun e => match e with Done _ ws => Some ws | _ => None end) (run_effects r).

Definition warnings (r : Run) : list string :=
  omap (fun e => match e with ConsoleWarn m => Some m | _ => None end) (run_effects r).

Definition rendered (r : Run) : list (list PlacedWord) :=
  omap (fun e => match e with RenderCall ws => Some ws | _ => None end) (run_effects r).
End Orchestration.

(** ** The render scheduler *)

(** *** [debounce(func, wait)] of lodash, with its default options
    ([leading] false, [trailing] true, no [maxWait])

    The closure variables of one debounced function. [func] itself is
    run by whoever drives the timer: [timerExpired] says with which
    arguments, and [invoked] stores what it returned. The pending
    [setTimeout] is kept as the time at which it is due. *)
Section Debounce.
Context {Args Result : Type}.

Record Debounced := {
  wait : Z;
  lastArgs : option Args;
  result : option Result;
  timerId : option Z;
  lastCallTime : option Z;
  lastInvokeTime : Z;
}.

Definition debounce (wait : Z) : Debounced :=
  {| wait := wait; lastArgs := None; result := None; timerId := None;
     lastCallTime := None; lastInvokeTime := 0 |}.

(** [setTimeout(callback, delay)] called at [time]: a negative delay
    counts as none. *)
Definition setTimeout (time delay : Z) : option Z := Some (time + Z.max 0 delay).

Definition shouldInvoke (time : Z) (d : Debounced) : bool :=
  match lastCallTime d with
  | None => true
  | Some called =>
      let timeSinceLastCall := time - called in
      (timeSinceLastCall >=? wait d) || (timeSinceLastCall <? 0)
  end.

Definition remainingWait (time : Z) (d : Debounced) : Z :=
  match lastCallTime d with
  | None => wait d
  | Some called => wait d - (time - called)
  end.

(** The debounced function called with [args] at [time]. With
    [leading] false it never runs [func]: it records the call, makes
    sure a timer is pending, and returns [result], what the last run of
    [func] returned. *)
Definition debounced (time : Z) (args : Args) (d : Debounced)
  : option Result * Debounced :=
  let isInvoking := shouldInvoke time d in
  match timerId d with
  | None =>
      (result d,
       {| wait := wait d; lastArgs := Some args; result := result d;
          timerId := setTimeout time (wait d); lastCallTime := Some time;
          lastInvokeTime := if isInvoking then time else lastInvokeTime d |})
  | Some due =>
      (result d,
       {| wait := wait d; lastArgs := Some args; result := result d;
          timerId := Some due; lastCallTime := Some time;
          lastInvokeTime := lastInvokeTime d |})
  end.

(** [timerExpired], run at [time] by the pending timer: either the
    trailing edge (the timer is gone; [func] is due with the recorded
    arguments, if any) or a new timer for the rest of the wait. *)
Definition timerExpired (time : Z) (d : Debounced) : option Args * Debounced :=
  if shouldInvoke time d
  then
    match lastArgs d with
    | Some args =>
        (Some args,
         {| wait := wait d; lastArgs := None; result := result d; timerId := None;
            lastCallTime := lastCallTime d; lastInvokeTime := time |})
    | None =>
        (None,
         {| wait := wait d; lastArgs := None; result := result d; timerId := None;
            lastCallTime := lastCallTime d; lastInvokeTime := lastInvokeTime d |})
    end
  else
    (None,
     {| wait := wait d; lastArgs := lastArgs d; result := result d;
        timerId := setTimeout time (remainingWait time d);
        lastCallTime := lastCallTime d; lastInvokeTime := lastInvokeTime d |}).

(** [result = func.apply(thisArg, args)] at the end of [invokeFunc]. *)
Definition invoked (returned : Result) (d : Debounced) : Debounced :=
  {| wait := wait d; lastArgs := lastArgs d; result := Some returned;
     timerId := timerId d; lastCallTime := lastCallTime d;
     lastInvokeTime := lastInvokeTime d |}.
End Debounce.

Arguments Debounced : clear implicits.

(** *** The component *)

(** The function a run of the pipeline returned is identified by the
    index of that run, whose [layout] variable it closes over. *)
Abbreviation RunId := nat.

Section Component.
Context `{Collaborators}.

(** What one call of [Wordcloud(props)] works with: the props, and
    what [useResponsiveSVGSelection] returns on that render. *)
Record Rendering := {
  callbacks : CallbacksProp;
  maxWords : option Z;         (* [maxWords = 100] when left out *)
  options : OptionsProp;
  words : list Word;
  selection : option Selection;
  size : Pair JS.number;
}.

(** The argument list of the debounced function. *)
Record Submission := {
  sub_selection : Selection;
  sub_options : Options;
  sub_callbacks : Callbacks;
  sub_size : Pair JS.number;
  sub_words : list Word;
  sub_maxWords : Z;
}.

(** The arguments with which the effect of the render [p] calls
    [reRender.current], [sel] being the selection it found. *)
Definition submission (p : Rendering) (sel : Selection) : Submission :=
  {| sub_selection := sel;
     sub_options := mergedOptions (options p);
     sub_callbacks := mergedCallbacks (callbacks p);
     sub_size := size p;
     sub_words := words p;
     sub_maxWords := default 100 (maxWords p) |}.

Definition run_pipeline (a : Submission) : Run :=
  pipeline (sub_selection a) (sub_options a) (sub_callbacks a) (sub_size a)
    (sub_words a) (sub_maxWords a).

(** One mounted component: the clock, the ref cell [reRender] (empty
    until the first render), the function React keeps from the last
    effect to call before the next one or at unmount, and every run of
    the pipeline so far. *)
Record Wordcloud := {
  now : Z;
  reRender : option (Debounced Submission RunId);
  effect_cleanup : option RunId;
  runs : list Run;
}.

Definition mount : Wordcloud :=
  {| now := 0; reRender := None; effect_cleanup := None; runs := [] |}.

(** Calling the function that run [rid] returned. *)
Definition invoke_cleanup (rid : RunId) (c : Wordcloud) : Wordcloud :=
  {| now := now c; reRender := reRender c; effect_cleanup := effect_cleanup c;
     runs := alter cleanup rid (runs c) |}.

(** React disposing of the previous effect. *)
Definition dispose_effect (c : Wordcloud) : Wordcloud :=
  match effect_cleanup c with
  | Some rid =>
      let c' := invoke_cleanup rid c in
      {| now := now c'; reRender := reRender c'; effect_cleanup := None;
         runs := runs c' |}
  | None => c
  end.

(** [useRef(debounce(..., mergedOptions.renderDebounce))]: the
    argument is evaluated on every render, the cell keeps the value of
    the first. *)
Definition useRef_reRender (mergedOptions : Options) (c : Wordcloud)
  : Debounced Submission RunId :=
  let initialValue := debounce (renderDebounce mergedOptions) in
  match reRender c with
  | Some current => current
  | None => initialValue
  end.

(** One render and the effect that follows it. [mergedCallbacks] and
    [mergedOptions] are new objects on every render, so the dependency
    list always differs and the effect always runs again, after the
    function the previous effect returned. *)
Definition render_component (p : Rendering) (c : Wordcloud) : Wordcloud :=
  let current := useRef_reRender (mergedOptions (options p)) c in
  let c1 := dispose_effect c in
  match selection p with
  | Some sel =>
      let '(returned, current') := debounced (now c1) (submission p sel) current in
      {| now := now c1; reRender := Some current'; effect_cleanup := returned;
         runs := runs c1 |}
  | None =>
      {| now := now c1; reRender := Some current; effect_cleanup := None;
         runs := runs c1 |}
  end.

(** The pending timer of the debounced function running, when it is due. *)
Definition timer_fires (c : Wordcloud) : Wordcloud :=
  match reRender c with
  | Some d =>
      match timerId d with
      | Some due =>
          if due <=? now c then
            match timerExpired (now c) d with
            | (Some args, d') =>
                {| now := now c;
                   reRender := Some (invoked (length (runs c)) d');
                   effect_cleanup := effect_cleanup c;
                   runs := runs c ++ [run_pipeline args] |}
            | (None, d') =>
                {| now := now c; reRender := Some d';
                   effect_cleanup := effect_cleanup c; runs := runs c |}
            end
          else c
      | None => c
      end
  | None => c
  end.

Inductive Event :=
| Renders (p : Rendering)
| Elapses (milliseconds : Z)
| TimerFires
| EngineDone (rid : RunId) (computedWords : list PlacedWord) (g : Random)
| Unmounts.

Definition step (c : Wordcloud) (e : Event) : Wordcloud :=
  match e with
  | Renders p => render_component p c
  | Elapses ms =>
      {| now := now c + Z.max 0 ms; reRender := reRender c;
         effect_cleanup := effect_cleanup c; runs := runs c |}
  | TimerFires => timer_fires c
  | EngineDone rid computedWords g =>
      {| now := now c; reRender := reRender c; effect_cleanup := effect_cleanup c;
         runs := alter (engine_completes computedWords g) rid (runs c) |}
  | Unmounts => dispose_effect c
  end.

Definition steps (c : Wordcloud) (es : list Event) : Wordcloud :=
  foldl step c es.

Definition pending_timer (c : Wordcloud) : option Z :=
  d ← reRender c; timerId d.

Definition debounce_interval (c : Wordcloud) : option Z :=
  wait <$> reRender c.
End Component.

(** ** Auxiliary notions used by the statements and proofs below *)

(** The specification float a non-negative mantissa and an exponent
    stand for at the end of IEEE rounding. *)
Definition rounded (s : bool) (m e : Z) : spec_float :=
  match m with
  | Z0 => S754_zero s
  | Zpos p => if e <=? emax - prec then S754_finite s p e else S754_infinity s
  | Zneg _ => S754_nan
  end.

(** A zero, or a positive value below six (whose mantissa and exponent
    are those of [6 = 6755399441055744 * 2^-50]). *)
Definition below_six (x : spec_float) : Prop :=
  match x with
  | S754_zero _ => True
  | S754_finite false m e =>
      (e <= -51 /\ Z.pos m <= 2 ^ 53) \/ (e = -50 /\ Z.pos m < 6755399441055744)
  | _ => False
  end.

(** *** The retry decision and the transcript of a run *)

(** The condition under which [onDone] shrinks and retries. *)
Definition retries (sortedWords : list Word) (attempts : Z)
           (computedWords : list PlacedWord) : bool :=
  negb (Nat.eqb (length sortedWords) (length computedWords))
  && (attempts <=? MAX_LAYOUT_ATTEMPTS).

(** The shrink step in the words of the specification:
    [newMin = max(oldMin * 0.95, 1)], [newMax = max(oldMax * 0.95, newMin)]. *)
Definition shrunk_bounds (bounds : MinMaxPair) : MinMaxPair :=
  let newMin := JS.Math_max (fst bounds * 0.95)%float 1%float in
  let newMax := JS.Math_max (snd bounds * 0.95)%float newMin in
  (newMin, newMax).

(** An entry of [attempts_made]: the attempt's number, its font-size
    bounds, and the formatted words handed to the engine. *)
Definition Attempt : Type := Z * MinMaxPair * list FormattedWord.
Definition number_of (x : Attempt) : Z := x.1.1.
Definition bounds_of (x : Attempt) : MinMaxPair := x.1.2.
Definition words_of (x : Attempt) : list FormattedWord := x.2.

Definition next_attempt (x y : Attempt) : Prop :=
  number_of y = number_of x + 1 /\ bounds_of y = shrunk_bounds (bounds_of x).

(** An engine result that leaves some of the sorted words unplaced. *)
Definition failing (sortedWords : list Word) (computedWords : list PlacedWord) : bool :=
  negb (Nat.eqb (length sortedWords) (length computedWords)).

Definition unplaced (sortedWords : list Word) (computedWords : list PlacedWord) : Z :=
  Z.of_nat (length sortedWords) - Z.of_nat (length computedWords).

Definition non_increasing (b b' : MinMaxPair) : Prop :=
  JS.le b'.1 b.1 = true /\ JS.le b'.2 b.2 = true.

Definition floored (b : MinMaxPair) : Prop :=
  JS.le 1%float b.1 = true /\ JS.le b.1 b.2 = true.

(** A formatted word with its rotation blanked out. *)
Definition without_rotation (w : FormattedWord) : FormattedWord :=
  {| fw_text := fw_text w; fw_value := fw_value w; fw_rest := fw_rest w;
     fw_padding := fw_padding w; fw_rotate := 0%float; fw_size := fw_size w;
     fw_font := fw_font w; fw_style := fw_style w; fw_weight := fw_weight w |}.

Section Transcript.
Context `{Collaborators}.


(** The shared generator from attempt to attempt. An attempt formats
    the sorted words on the generator as it finds it, and hands the
    generator on to the engine; what the engine leaves is what the next
    attempt finds. [generator_after] is the generator left after the
    attempts [made], starting from [g]; [generators] lists, for each of
    the attempts, the generator it found. *)
Definition generator_left (engine : Engine) (o : Options) (sorted : list Word)
           (g : Random) (x : Attempt) : Random :=
  (engine (number_of x) (words_of x) (formatWords o sorted (bounds_of x) g).2).2.


Fixpoint generators (engine : Engine) (o : Options) (sorted : list Word)
         (g : Random) (made : list Attempt) : list Random :=
  match made with
  | [] => []
  | x :: made' => g :: generators engine o sorted (generator_left engine o sorted g x) made'
  end.

(** The generator a run starts on. *)
Definition seeded (o : Options) : Random :=
  if deterministic o then seedrandom (Some "deterministic"%string) else seedrandom None.

(** The calls that follow the engine's answer to the attempt [h]. *)
Definition after_result (r : Run) (h : CloudHandlers) (computedWords : list PlacedWord)
           (g : Random) : list Effect :=
  let a := cloud_attempts h in
  let fs := shrunk_bounds (cloud_fontSizes h) in
  Done a computedWords ::
  if retries (run_sortedWords r) a computedWords
  then (if a =? MAX_LAYOUT_ATTEMPTS
        then [ConsoleWarn
                (warning_message
                   (Z.of_nat (length (run_sortedWords r)) - Z.of_nat (length computedWords)) a)]
        else [])
       ++ [LayoutStop a;
           CreateCloud (a + 1) fs
             (fst (formatWords (run_options r) (run_sortedWords r) fs g))]
  else [RenderCall computedWords].

(** The warnings a transcript calls for: one when the tenth answer
    exists and leaves words unplaced, none otherwise. *)
Definition expected_warnings (r : Run) : list string :=
  match results r !! 9%nat with
  | Some tenth =>
      if failing (run_sortedWords r) tenth
      then [warning_message (unplaced (run_sortedWords r) tenth) MAX_LAYOUT_ATTEMPTS]
      else []
  | None => []
  end.

(** The invariant of a run started by [pipeline]. *)
Definition transcript_ok (r : Run) : Prop :=
  let sorted := run_sortedWords r in
  let made := attempts_made r in
  exists earlier current,
    made = earlier ++ [current]
    /\ number_of current = Z.of_nat (length made)
    /\ number_of current <= MAX_LAYOUT_ATTEMPTS + 1
    /\ Sorted next_attempt made
    /\ (exists first, head made = Some first
                      /\ number_of first = 1
                      /\ bounds_of first = fontSizes (run_options r))
    /\ Forall (fun x => exists g,
                   words_of x = (formatWords (run_options r) sorted (bounds_of x) g).1) made
    /\ warnings r = expected_warnings r
    /\ match in_flight r with
       | Some h =>
           (cloud_attempts h, cloud_fontSizes h, cloud_words h) = current
           /\ Z.of_nat (length (results r)) = number_of current - 1
           /\ Forall (fun c => failing sorted c = true) (results r)
           /\ rendered r = []
       | None =>
           exists failed final,
             results r = failed ++ [final]
             /\ length (results r) = length made
             /\ Forall (fun c => failing sorted c = true) failed
             /\ rendered r = [final]
             /\ (failing sorted final = true -> number_of current = MAX_LAYOUT_ATTEMPTS + 1)
       end.

(** A run with nothing in flight, and the renders and warnings of [r0]. *)
Definition halted_as (r0 r : Run) : Prop :=
  in_flight r = None /\ rendered r = rendered r0 /\ warnings r = warnings r0.
End Transcript.

(** *** Bursts of renders *)

Section Bursts.
Context `{Collaborators}.


End Bursts.

(** ** Concrete collaborators, engines and inputs for the worked examples *)

(** A generator whose draws alternate between [0] and [0.5]. *)
Definition alternating : Random :=
  {| draws := fun n => if Nat.even n then 0%float else 0.5%float; drawn := 0%nat |}.

(** Collaborators that leave everything else as plain as possible:
    every word gets the upper font-size bound. *)
Definition demo : Collaborators := {|
  Selection := unit;
  getDefaultColors := [];
  number_to_string := fun _ => ""%string;
  seedrandom := fun _ => alternating;
  rotate := fun _ _ g => (0%float, g);
  getFontScale := fun _ fontSizes _ _ => snd fontSizes;
|}.

(** An engine that places nothing; it does not draw from the generator. *)
Definition never_places : Engine := fun _ _ g => ([], g).

Definition word (t : string) (v : JS.number) : Word :=
  {| text := t; value := v; rest := [] |}.

Definition demo_size : Pair JS.number := (300%float, 300%float).

(** The default options but for the font-size bounds. *)
Definition demo_options (bounds : MinMaxPair) : Options :=
  mergedOptions (H := demo)
    {| colors_opt := None; deterministic_opt := None; enableTooltip_opt := None;
       fontFamily_opt := None; fontSizes_opt := Some bounds; fontStyle_opt := None;
       fontWeight_opt := None; padding_opt := None; rotations_opt := None;
       rotationAngles_opt := None; scale_opt := None; spiral_opt := None;
       transitionDuration_opt := None; renderDebounce_opt := None;
       batchSize_opt := None |}.

(** A render of the demo component on the given words. *)
Definition demo_rendering (ws : list Word) (interval : option Z) : Rendering (H := demo) :=
  @Build_Rendering demo
    {| getWordTooltip_opt := None |}
    None
    {| colors_opt := None; deterministic_opt := None; enableTooltip_opt := None;
       fontFamily_opt := None; fontSizes_opt := None; fontStyle_opt := None;
       fontWeight_opt := None; padding_opt := None; rotations_opt := None;
       rotationAngles_opt := None; scale_opt := None; spiral_opt := None;
       transitionDuration_opt := None; renderDebounce_opt := interval;
       batchSize_opt := None |}
    ws
    (Some tt)
    demo_size.

Definition placed (w : FormattedWord) : PlacedWord :=
  {| pw_word := w; pw_x := 0%float; pw_y := 0%float |}.

(** The render before the selection exists: the effect does nothing. *)
Definition demo_unselected : Rendering (H := demo) :=
  @Build_Rendering demo {| getWordTooltip_opt := None |} None no_options [] None demo_size.

(** An engine that places the first word only in the tenth attempt,
    every word in the eleventh, and nothing before. *)
Definition places_at_last : Engine :=
  fun attempts ws g =>
    (if attempts =? 11 then map placed ws
     else if attempts =? 10 then map placed (take 1 ws)
     else [], g).

(** An engine that places the first word in the tenth attempt and
    nothing in any other. *)
Definition places_once : Engine :=
  fun attempts ws g => (if attempts =? 10 then map placed (take 1 ws) else [], g).

(** The words of [ws] as the demo engine is handed them on a first
    attempt, all placed. *)
Definition demo_placed (ws : list Word) : list PlacedWord :=
  map placed
      (formatWords (H := demo) (demo_options (4%float, 32%float)) ws
         (4%float, 32%float) alternating).1.


(** ** Further notions: generators, stops, and the history of a component *)

(** A generator whose every draw lies in [[0, 1)], as [Math.random]
    and seedrandom's generators promise. *)
Definition unit_interval (g : Random) : Prop :=
  forall n, JS.le 0%float (draws g n) = true /\ JS.lt (draws g n) 1%float = true.

(** The generator [g] after [n] more draws. *)
Definition advance (n : nat) (g : Random) : Random :=
  {| draws := draws g; drawn := drawn g + n |}.

(** The six angles of the default rotation function. *)
Definition six_angles : list JS.number :=
  [(-90)%float; (-60)%float; (-30)%float; 0%float; 30%float; 60%float].

(** [rotations ? ... : ...] takes its second branch: [rotations] is
    missing, or it is a falsy number ([0], [-0] or [NaN]). *)
Definition default_rotation_in_use (o : Options) : Prop :=
  match rotations o with
  | Some n => JS.truthy n = false
  | None => True
  end.

(** From one attempt's bounds to the next, a bound that is above one
    gets strictly smaller. *)
Definition strictly_shrinking (b b' : MinMaxPair) : Prop :=
  (JS.lt 1%float b.1 = true -> JS.lt b'.1 b.1 = true)
  /\ (JS.lt 1%float b.2 = true -> JS.lt b'.2 b.2 = true).

Definition not_NaN (w : Word) : Prop := PrimFloat.is_nan (value w) = false.

(** What [Array_slice0] keeps of an array of [len] elements. *)
Definition slice0_length (endIndex : Z) (len : nat) : nat :=
  Z.to_nat (if endIndex <? 0 then Z.max (Z.of_nat len + endIndex) 0
            else Z.min endIndex (Z.of_nat len)).

Section History.
Context `{Collaborators}.

(** The attempts whose handle [layout.stop()] was called on, in the
    order of the calls. *)
Definition stopped (r : Run) : list Z :=
  omap (fun e => match e with LayoutStop a => Some a | _ => None end) (run_effects r).

(** A render whose [useResponsiveSVGSelection] has no selection yet;
    any other event. *)
Definition finds_no_selection (e : Event) : Prop :=
  match e with
  | Renders p => selection p = None
  | _ => True
  end.

(** An event that leaves React's hold on the last effect alone: neither
    a render nor the unmount. *)
Definition between_renders (e : Event) : Prop :=
  match e with
  | Renders _ | Unmounts => False
  | _ => True
  end.

(** Any event but a render. *)
Definition not_a_render (e : Event) : Prop :=
  match e with
  | Renders _ => False
  | _ => True
  end.

(** The run of the pipeline started last, if any was. *)
Definition latest_run (c : Wordcloud) : option RunId :=
  match length (runs c) with
  | O => None
  | S n => Some n
  end.

(** The debounced function's [result] is what the latest run returned. *)
Definition result_is_latest (c : Wordcloud) : Prop :=
  match reRender c with
  | Some d => result d = latest_run c
  | None => latest_run c = None
  end.

(** The debounced function of [c], of interval [w], was last called
    at the time [t], which is not in the future. *)
Definition called_at (w t : Z) (c : Wordcloud) : Prop :=
  exists d, reRender c = Some d /\ wait d = w /\ lastCallTime d = Some t /\ t <= now c.

End History.

(** The default options but for [rotations]. *)
Definition demo_rotations (n : JS.number) : Options :=
  mergedOptions (H := demo)
    {| colors_opt := None; deterministic_opt := None; enableTooltip_opt := None;
       fontFamily_opt := None; fontSizes_opt := None; fontStyle_opt := None;
       fontWeight_opt := None; padding_opt := None; rotations_opt := Some n;
       rotationAngles_opt := None; scale_opt := None; spiral_opt := None;
       transitionDuration_opt := None; renderDebounce_opt := None;
       batchSize_opt := None |}.
(* ===================================================================== *)
(** * Part II. Properties                                                 *)
(* ===================================================================== *)

(** ** IEEE 754 binary64 facts

    Bit-level consequences of [SpecFloat] for the few operations the
    orchestrator performs on numbers. *)

(** *** Shifting and rounding a mantissa *)

Lemma digits2_pos_bounds p :
  2 ^ Zpos (digits2_pos p) <= 2 * Zpos p /\ Zpos p < 2 ^ Zpos (digits2_pos p).
Proof.
  induction p as [p IH|p IH|]; simpl digits2_pos;
    rewrite ?Pos2Z.inj_succ, ?Z.pow_succ_r by lia; lia.
Qed.

Lemma iter_pos_nat {A} (f : A -> A) p x :
  SpecFloat.iter_pos f p x = Nat.iter (Pos.to_nat p) f x.
Proof.
  revert x. induction p as [p IH|p IH|]; intros x; simpl SpecFloat.iter_pos.
  - rewrite !IH, Pos2Nat.inj_xI, Nat.iter_succ_r.
    replace (2 * Pos.to_nat p)%nat with (Pos.to_nat p + Pos.to_nat p)%nat by lia.
    rewrite Nat.iter_add. reflexivity.
  - rewrite !IH, Pos2Nat.inj_xO.
    replace (2 * Pos.to_nat p)%nat with (Pos.to_nat p + Pos.to_nat p)%nat by lia.
    rewrite Nat.iter_add. reflexivity.
  - reflexivity.
Qed.

Lemma shr_1_nonneg m r s :
  0 <= m -> shr_1 (Build_shr_record m r s) = Build_shr_record (m / 2) (Z.odd m) (r || s).
Proof.
  intros Hm. rewrite <- Z.div2_div.
  destruct m as [|[p|p|]|p]; try lia; reflexivity.
Qed.

Lemma iter_shr_1 n m :
  0 <= m ->
  exists s,
    Nat.iter (S n) shr_1 (Build_shr_record m false false)
    = Build_shr_record (m / 2 ^ Z.of_nat (S n)) (Z.testbit m (Z.of_nat n)) s.
Proof.
  intros Hm. induction n as [|n [s IH]].
  - exists false. cbn [Nat.iter nat_rect]. rewrite shr_1_nonneg by lia.
    change (2 ^ Z.of_nat 1) with 2. rewrite Z.bit0_odd. reflexivity.
  - exists (Z.testbit m (Z.of_nat n) || s).
    change (Nat.iter (S (S n)) shr_1 ?x) with (shr_1 (Nat.iter (S n) shr_1 x)).
    rewrite IH, shr_1_nonneg by (apply Z.div_pos; lia).
    f_equal.
    + rewrite Z.div_div by lia.
      rewrite (Nat2Z.inj_succ (S n)), Z.pow_succ_r by lia. f_equal. lia.
    + rewrite Z.testbit_odd, Z.shiftr_div_pow2 by lia. reflexivity.
Qed.

Lemma testbit_mod_pow2 m n :
  0 <= m -> 0 < n -> Z.testbit m (n - 1) = true -> 2 ^ (n - 1) <= m mod 2 ^ n.
Proof.
  intros Hm Hn Hb. apply Z.testbit_true in Hb; [|lia].
  assert (2 ^ n = 2 ^ (n - 1) * 2) as ->.
  { replace n with (Z.succ (n - 1)) at 1 by lia. rewrite Z.pow_succ_r by lia. lia. }
  rewrite Z.rem_mul_r by lia. rewrite Hb.
  pose proof (Z.mod_pos_bound m (2 ^ (n - 1)) ltac:(lia)). lia.
Qed.

Lemma fexp_eq e : fexp prec emax e = Z.max (e - 53) (-1074).
Proof. reflexivity. Qed.

Lemma Zdigits2_bounds P :
  0 < P -> 2 ^ Zdigits2 P <= 2 * P /\ P < 2 ^ Zdigits2 P /\ 0 < Zdigits2 P.
Proof.
  destruct P as [|p|p]; try lia. intros _. simpl Zdigits2.
  pose proof (digits2_pos_bounds p). lia.
Qed.

Lemma Zdigits2_le P k : 0 <= k -> 0 <= P < 2 ^ k -> Zdigits2 P <= k.
Proof.
  intros Hk [H0 HP]. destruct (Z.eq_dec P 0) as [->|Hne]; [simpl; lia|].
  destruct (Zdigits2_bounds P ltac:(lia)) as (Hlo & _ & Hd).
  destruct (Z_le_gt_dec (Zdigits2 P) k) as [Hle|Hgt]; [exact Hle|exfalso].
  assert (2 ^ (k + 1) <= 2 ^ Zdigits2 P) by (apply Z.pow_le_mono_r; lia).
  rewrite Z.pow_add_r in H by lia. lia.
Qed.

Lemma shr_fexp_shift P E :
  0 < P ->
  let e1 := fexp prec emax (Zdigits2 P + E) in
  0 < e1 - E ->
  exists s,
    shr_fexp prec emax P E loc_Exact
    = (Build_shr_record (P / 2 ^ (e1 - E)) (Z.testbit P (e1 - E - 1)) s, e1).
Proof.
  intros HP e1 Hn. unfold shr_fexp. fold e1. simpl shr_record_of_loc.
  destruct (e1 - E) as [|p|p] eqn:En; try lia.
  unfold shr. rewrite iter_pos_nat.
  destruct (Pos2Nat.is_succ p) as [k Hk]. rewrite Hk.
  destruct (iter_shr_1 k P ltac:(lia)) as [s Hs]. exists s. rewrite Hs.
  assert (Z.of_nat (S k) = Z.pos p) as Hp by (rewrite <- Hk; apply positive_nat_Z).
  rewrite Hp. f_equal; [|lia]. f_equal. f_equal. lia.
Qed.

Lemma shr_fexp_keep m e :
  0 <= m < 2 ^ 53 -> -1074 <= e ->
  shr_fexp prec emax m e loc_Exact = (Build_shr_record m false false, e).
Proof.
  intros Hm He. unfold shr_fexp. simpl shr_record_of_loc.
  pose proof (Zdigits2_le m 53 ltac:(lia) Hm) as Hd.
  rewrite fexp_eq.
  destruct (Z.max (Zdigits2 m + e - 53) (-1074) - e) as [|p|p] eqn:En; try reflexivity.
  lia.
Qed.

Lemma shr_fexp_carry e :
  -1074 <= e ->
  shr_fexp prec emax (2 ^ 53) e loc_Exact = (Build_shr_record (2 ^ 52) false false, e + 1).
Proof.
  intros He. unfold shr_fexp. simpl shr_record_of_loc.
  change (Zdigits2 (2 ^ 53)) with 54. rewrite fexp_eq.
  replace (Z.max (54 + e - 53) (-1074) - e) with 1 by lia.
  reflexivity.
Qed.

Lemma round_nearest_even_cases q r s :
  round_nearest_even q (loc_of_shr_record (Build_shr_record q r s)) = q
  \/ (r = true /\ round_nearest_even q (loc_of_shr_record (Build_shr_record q r s)) = q + 1).
Proof.
  destruct r, s; simpl; auto. destruct (Z.even q); auto.
Qed.

Lemma binary_round_aux_shift s P E :
  0 < P ->
  let e1 := fexp prec emax (Zdigits2 P + E) in
  let n := e1 - E in
  0 < n ->
  exists m1,
    (m1 = P / 2 ^ n \/ (m1 = P / 2 ^ n + 1 /\ 2 ^ (n - 1) <= P mod 2 ^ n))
    /\ binary_round_aux prec emax s P E loc_Exact
       = if m1 <? 2 ^ 53 then rounded s m1 e1 else rounded s (2 ^ 52) (e1 + 1).
Proof.
  intros HP e1 n Hn.
  destruct (shr_fexp_shift P E HP Hn) as [st Hshr]. fold e1 n in Hshr.
  unfold binary_round_aux. rewrite Hshr. cbn [shr_m].
  set (q := P / 2 ^ n) in *.
  assert (-1074 <= e1) as He1 by (subst e1; rewrite fexp_eq; lia).
  assert (0 <= q < 2 ^ 53) as Hq.
  { split; [apply Z.div_pos; lia|].
    apply Z.div_lt_upper_bound; [lia|].
    destruct (Zdigits2_bounds P HP) as (_ & Hhi & Hd).
    assert (Zdigits2 P <= n + 53) by (subst n e1; rewrite fexp_eq; lia).
    rewrite <- Z.pow_add_r by lia.
    eapply Z.lt_le_trans; [exact Hhi|]. apply Z.pow_le_mono_r; lia. }
  set (m1 := round_nearest_even q (loc_of_shr_record (Build_shr_record q (Z.testbit P (n - 1)) st))).
  assert (m1 = q \/ (m1 = q + 1 /\ 2 ^ (n - 1) <= P mod 2 ^ n)) as Hm1.
  { destruct (round_nearest_even_cases q (Z.testbit P (n - 1)) st) as [Hc|[Hb Hc]]; fold m1 in Hc.
    - auto.
    - right. split; [exact Hc|]. apply testbit_mod_pow2; [lia|lia|exact Hb]. }
  clearbody m1. exists m1. split; [exact Hm1|].
  destruct (Z.ltb_spec m1 (2 ^ 53)) as [Hlt|Hge].
  - rewrite shr_fexp_keep by lia. cbn [shr_m]. reflexivity.
  - assert (m1 = 2 ^ 53) as -> by lia.
    rewrite shr_fexp_carry by lia. cbn [shr_m]. reflexivity.
Qed.

(** *** Multiplying by the shrink factor and by six *)

Lemma Zdigits2_unique P k : 0 < k -> 2 ^ (k - 1) <= P < 2 ^ k -> Zdigits2 P = k.
Proof.
  intros Hk [Hlo Hhi].
  assert (0 < P) as HP by (pose proof (Z.pow_pos_nonneg 2 (k - 1)); lia).
  pose proof (Zdigits2_le P k ltac:(lia) ltac:(lia)) as Hle.
  destruct (Zdigits2_bounds P HP) as (_ & Hlt & Hd).
  destruct (Z_lt_le_dec (Zdigits2 P) k) as [Hc|Hc]; [exfalso|lia].
  assert (2 ^ Zdigits2 P <= 2 ^ (k - 1)) by (apply Z.pow_le_mono_r; lia). lia.
Qed.

Lemma Prim2SF_one : Prim2SF 1 = S754_finite false 4503599627370496 (-52).
Proof. reflexivity. Qed.
Lemma Prim2SF_shrink : Prim2SF 0.95 = S754_finite false 8556839292003942 (-53).
Proof. reflexivity. Qed.

Lemma valid_finite s m e :
  valid_binary (S754_finite s m e) = true ->
  Z.max (Z.pos (digits2_pos m) + e - 53) (-1074) = e /\ e <= 971.
Proof.
  simpl. unfold bounded, canonical_mantissa. rewrite fexp_eq.
  intros [H1 H2]%andb_prop. apply Z.eqb_eq in H1. apply Z.leb_le in H2.
  change (emax - prec) with 971 in H2. lia.
Qed.

Lemma SFleb_finite_pos m e m' e' :
  SFleb (S754_finite false m e) (S754_finite false m' e') = true
  <-> e < e' \/ (e = e' /\ Z.pos m <= Z.pos m').
Proof.
  unfold SFleb, SFcompare.
  change (Pos.compare_cont Eq m m') with (Pos.compare m m').
  destruct (Z.compare_spec e e'); [destruct (Pos.compare_spec m m')|..];
    split; intros; try reflexivity; try discriminate; lia.
Qed.

Lemma SFltb_finite_pos m e m' e' :
  SFltb (S754_finite false m e) (S754_finite false m' e') = true
  <-> e < e' \/ (e = e' /\ Z.pos m < Z.pos m').
Proof.
  unfold SFltb, SFcompare.
  change (Pos.compare_cont Eq m m') with (Pos.compare m m').
  destruct (Z.compare_spec e e'); [destruct (Pos.compare_spec m m')|..];
    split; intros; try reflexivity; try discriminate; lia.
Qed.

Lemma rounded_finite s m e :
  0 < m -> e <= 971 -> rounded s m e = S754_finite s (Z.to_pos m) e.
Proof.
  intros Hm He. destruct m as [|p|p]; try lia. unfold rounded.
  destruct (Z.leb_spec e (emax - prec)) as [_|Hc]; [reflexivity|].
  change (emax - prec) with 971 in Hc. lia.
Qed.

Lemma shrink_le (x : float) : (1 <=? x)%float = true -> (x * 0.95 <=? x)%float = true.
Proof.
  rewrite !FloatAxioms.leb_spec, FloatAxioms.mul_spec, Prim2SF_one, Prim2SF_shrink.
  pose proof (Prim2SF_valid x) as Hv.
  destruct (Prim2SF x) as [[]|[]| |[] m e]; try easy.
  rewrite SFleb_finite_pos. intros Hone.
  apply valid_finite in Hv as [Hcan Hemax].
  pose proof (digits2_pos_bounds m) as [Hdlo Hdhi].
  assert (Z.pos (digits2_pos m) = 53) as Hd by lia.
  rewrite Hd in *. clear Hcan.
  assert (2 ^ 52 <= Z.pos m) as Hmlo by lia.
  unfold SF64mul, SFmul. cbn [xorb].
  set (P := Z.pos (m * 8556839292003942)).
  assert (P = Z.pos m * 8556839292003942) as HP by reflexivity.
  assert (2 ^ 104 <= P < 2 ^ 106) as HPb by lia.
  clearbody P.
  destruct (Z_lt_le_dec P (2 ^ 105)) as [Hsmall|Hbig].
  - (* 105 digits: the product is shifted by 52 *)
    assert (Zdigits2 P = 105) as HdP by (apply Zdigits2_unique; lia).
    pose proof (binary_round_aux_shift false P (e + -53) ltac:(lia)) as Hr.
    cbv zeta in Hr. rewrite HdP, fexp_eq in Hr.
    replace (Z.max (105 + (e + -53) - 53) (-1074)) with (e - 1) in Hr by lia.
    replace (e - 1 - (e + -53)) with 52 in Hr by lia.
    destruct (Hr ltac:(lia)) as (m1 & Hm1 & ->). clear Hr.
    assert (2 ^ 52 <= P / 2 ^ 52 < 2 ^ 53) as Hq.
    { split; [apply Z.div_le_lower_bound; lia|apply Z.div_lt_upper_bound; lia]. }
    destruct (Z.ltb_spec m1 (2 ^ 53)).
    + rewrite rounded_finite by lia. apply SFleb_finite_pos. lia.
    + rewrite rounded_finite by lia. apply SFleb_finite_pos.
      rewrite Z2Pos.id by lia. lia.
  - (* 106 digits: the product is shifted by 53 *)
    assert (Zdigits2 P = 106) as HdP by (apply Zdigits2_unique; lia).
    pose proof (binary_round_aux_shift false P (e + -53) ltac:(lia)) as Hr.
    cbv zeta in Hr. rewrite HdP, fexp_eq in Hr.
    replace (Z.max (106 + (e + -53) - 53) (-1074)) with e in Hr by lia.
    replace (e - (e + -53)) with 53 in Hr by lia.
    destruct (Hr ltac:(lia)) as (m1 & Hm1 & ->). clear Hr.
    assert (2 ^ 52 <= P / 2 ^ 53 < Z.pos m) as Hq.
    { split; [apply Z.div_le_lower_bound; lia|apply Z.div_lt_upper_bound; lia]. }
    destruct (Z.ltb_spec m1 (2 ^ 53)); [|lia].
    rewrite rounded_finite by lia. apply SFleb_finite_pos.
    rewrite Z2Pos.id by lia. lia.
Qed.

Lemma Prim2SF_zero : Prim2SF 0 = S754_zero false.
Proof. reflexivity. Qed.
Lemma Prim2SF_six : Prim2SF 6 = S754_finite false 6755399441055744 (-50).
Proof. reflexivity. Qed.

Lemma truncate_below_six x : below_six (Prim2SF x) -> 0 <= JS.truncate x <= 5.
Proof.
  unfold JS.truncate. destruct (Prim2SF x) as [s|s| |[] m e]; simpl below_six; try easy.
  intros [[He Hm]|[-> Hm]].
  - rewrite Z.shiftl_div_pow2 by lia.
    split; [apply Z.div_pos; lia|].
    apply Z.le_trans with 4; [|lia].
    apply Z.div_le_upper_bound; [lia|].
    assert (2 ^ 51 <= 2 ^ (- e)) by (apply Z.pow_le_mono_r; lia). lia.
  - rewrite Z.shiftl_div_pow2 by lia. change (2 ^ (- -50)) with (2 ^ 50).
    split; [apply Z.div_pos; lia|].
    assert (Z.pos m / 2 ^ 50 < 6); [|lia].
    apply Z.div_lt_upper_bound; lia.
Qed.

Lemma times_six_below_six (r : float) :
  (0 <=? r)%float = true -> (r <? 1)%float = true -> below_six (Prim2SF (r * 6)%float).
Proof.
  rewrite FloatAxioms.leb_spec, FloatAxioms.ltb_spec, FloatAxioms.mul_spec, Prim2SF_zero, Prim2SF_one, Prim2SF_six.
  pose proof (Prim2SF_valid r) as Hv.
  destruct (Prim2SF r) as [[]|[]| |[] m e]; try easy.
  intros _. rewrite SFltb_finite_pos. intros Hlt.
  apply valid_finite in Hv as [Hcan Hemax].
  pose proof (digits2_pos_bounds m) as [Hdlo Hdhi].
  set (d := Z.pos (digits2_pos m)) in *.
  assert (0 < d) as Hdpos by (subst d; lia).
  assert (e <= -53 /\ d <= 53) as [He Hd].
  { assert (d <= 53) by lia. split; [|lia].
    destruct (Z_le_gt_dec e (-53)); [lia|exfalso].
    assert (d = 53) as Hd53 by lia. rewrite Hd53 in *. lia. }
  assert (Z.pos m < 2 ^ 53) as Hm.
  { eapply Z.lt_le_trans; [exact Hdhi|]. apply Z.pow_le_mono_r; lia. }
  unfold SF64mul, SFmul. cbn [xorb].
  set (P := Z.pos (m * 6755399441055744)).
  assert (P = Z.pos m * 6755399441055744) as HP by reflexivity.
  clearbody P.
  assert (0 < P < 2 ^ 106) as HPb by lia.
  pose proof (Zdigits2_le P 106 ltac:(lia) ltac:(lia)) as HdP.
  assert (d = 53 -> 105 <= Zdigits2 P) as HdP53.
  { intros Hd53. rewrite Hd53 in *.
    destruct (Zdigits2_bounds P ltac:(lia)) as (_ & Hhi & _).
    destruct (Z_le_gt_dec 105 (Zdigits2 P)); [lia|exfalso].
    assert (2 ^ Zdigits2 P <= 2 ^ 104) by (apply Z.pow_le_mono_r; lia). lia. }
  assert (0 < Zdigits2 P) as HdPpos by (apply Zdigits2_bounds; lia).
  pose proof (binary_round_aux_shift false P (e + -50) ltac:(lia)) as Hr.
  cbv zeta in Hr. rewrite fexp_eq in Hr.
  set (e1 := Z.max (Zdigits2 P + (e + -50) - 53) (-1074)) in *.
  assert (-1074 <= e1 <= -50) as He1 by lia.
  assert (50 <= e1 - (e + -50)) as Hn.
  { destruct (Z.eq_dec d 53) as [Hd53|Hd53]; [specialize (HdP53 Hd53)|]; lia. }
  destruct (Hr ltac:(lia)) as (m1 & Hm1 & ->). clear Hr.
  set (n := e1 - (e + -50)) in *.
  assert (0 <= P / 2 ^ n < 2 ^ 53) as Hq.
  { split; [apply Z.div_pos; lia|].
    apply Z.div_lt_upper_bound; [lia|].
    destruct (Zdigits2_bounds P ltac:(lia)) as (_ & Hhi & _).
    rewrite <- Z.pow_add_r by lia.
    eapply Z.lt_le_trans; [exact Hhi|]. apply Z.pow_le_mono_r; lia. }
  destruct (Z.ltb_spec m1 (2 ^ 53)) as [Hsmall|Hcarry].
  - destruct (Z.eq_dec m1 0) as [->|Hnz]; [exact I|].
    rewrite rounded_finite by lia. simpl below_six. rewrite Z2Pos.id by lia.
    destruct (Z.eq_dec e1 (-50)) as [He50|He50]; [right|left; lia].
    split; [exact He50|].
    (* the exponent -50 is reached only by 106-digit products shifted by 53 *)
    assert (e = -53 /\ Zdigits2 P = 106) as [-> HdP106] by lia.
    assert (n = 53) as Hn53 by lia. rewrite Hn53 in *.
    pose proof (Z.div_mod P (2 ^ 53) ltac:(lia)) as Hdm.
    pose proof (Z.mod_pos_bound P (2 ^ 53) ltac:(lia)) as Hmod.
    destruct Hm1 as [->|[-> Hrem]]; lia.
  - assert (m1 = 2 ^ 53) as Hm1eq by lia.
    rewrite rounded_finite by lia. simpl below_six.
    destruct (Z.eq_dec e1 (-50)) as [He50|He50]; [exfalso|].
    + assert (e = -53 /\ Zdigits2 P = 106) as [-> HdP106] by lia.
      assert (n = 53) as Hn53 by lia. rewrite Hn53 in *.
      pose proof (Z.div_mod P (2 ^ 53) ltac:(lia)) as Hdm.
      pose proof (Z.mod_pos_bound P (2 ^ 53) ltac:(lia)) as Hmod.
      destruct Hm1 as [Hc|[Hc Hrem]]; lia.
    + destruct (Z.eq_dec e1 (-51)); [right|left]; simpl; lia.
Qed.

(** *** The order of numbers *)

Ltac order_cases :=
  repeat match goal with
  | |- context [Z.compare ?a ?b] => destruct (Z.compare_spec a b)
  | H : context [Z.compare ?a ?b] |- _ => destruct (Z.compare_spec a b)
  | |- context [Pos.compare_cont Eq ?a ?b] =>
      change (Pos.compare_cont Eq a b) with (Pos.compare a b);
      destruct (Pos.compare_spec a b)
  | H : context [Pos.compare_cont Eq ?a ?b] |- _ =>
      change (Pos.compare_cont Eq a b) with (Pos.compare a b) in H;
      destruct (Pos.compare_spec a b)
  end; simpl in *; try congruence; try lia.

Ltac by_cases x := destruct x as [[]|[]| |[] ? ?].

Lemma SFcompare_refl x : x <> S754_nan -> SFcompare x x = Some Eq.
Proof.
  by_cases x; simpl; try congruence; intros _;
    rewrite Z.compare_refl, Pos.compare_cont_refl; reflexivity.
Qed.

Lemma SFleb_trans x y z : SFleb x y = true -> SFleb y z = true -> SFleb x z = true.
Proof. unfold SFleb. by_cases x; by_cases y; by_cases z; simpl; try congruence; order_cases. Qed.

Lemma SFltb_asym x y : SFltb x y = true -> SFltb y x = false.
Proof. unfold SFltb. by_cases x; by_cases y; simpl; try congruence; order_cases. Qed.

Lemma SFltb_SFleb x y : SFltb x y = true -> SFleb x y = true.
Proof. unfold SFltb, SFleb. destruct (SFcompare x y) as [[]|]; congruence. Qed.

Lemma SFleb_total x y :
  x <> S754_nan -> y <> S754_nan -> SFltb x y = false -> SFleb y x = true.
Proof. unfold SFltb, SFleb. by_cases x; by_cases y; simpl; try congruence; order_cases. Qed.

Lemma SFeqb_SFltb x y v :
  SFeqb x v = true -> SFltb x y = true -> SFeqb y v = false.
Proof.
  unfold SFeqb, SFltb. by_cases x; by_cases y; by_cases v; simpl; try congruence; order_cases.
Qed.

Lemma SFleb_not_nan x y : SFleb x y = true -> x <> S754_nan /\ y <> S754_nan.
Proof. unfold SFleb. by_cases x; by_cases y; simpl; try congruence; split; congruence. Qed.

Lemma SFltb_not_nan x y : SFltb x y = true -> x <> S754_nan /\ y <> S754_nan.
Proof. intros H%SFltb_SFleb. revert H. apply SFleb_not_nan. Qed.

(** On primitive floats *)

Lemma is_nan_false x : PrimFloat.is_nan x = false <-> Prim2SF x <> S754_nan.
Proof.
  unfold PrimFloat.is_nan. rewrite FloatAxioms.eqb_spec. unfold SFeqb. split.
  - intros H Hn. rewrite Hn in H. discriminate.
  - intros H. rewrite SFcompare_refl by exact H. reflexivity.
Qed.

Lemma le_not_nan x y :
  JS.le x y = true -> PrimFloat.is_nan x = false /\ PrimFloat.is_nan y = false.
Proof. unfold JS.le. rewrite FloatAxioms.leb_spec, !is_nan_false. apply SFleb_not_nan. Qed.

Lemma lt_not_nan x y :
  JS.lt x y = true -> PrimFloat.is_nan x = false /\ PrimFloat.is_nan y = false.
Proof. unfold JS.lt. rewrite FloatAxioms.ltb_spec, !is_nan_false. apply SFltb_not_nan. Qed.

Lemma le_refl x : PrimFloat.is_nan x = false -> JS.le x x = true.
Proof.
  unfold JS.le. rewrite FloatAxioms.leb_spec, is_nan_false. intros H.
  unfold SFleb. rewrite SFcompare_refl by exact H. reflexivity.
Qed.

Lemma le_trans x y z : JS.le x y = true -> JS.le y z = true -> JS.le x z = true.
Proof. unfold JS.le. rewrite !FloatAxioms.leb_spec. apply SFleb_trans. Qed.

Lemma lt_asym x y : JS.lt x y = true -> JS.lt y x = false.
Proof. unfold JS.lt. rewrite !FloatAxioms.ltb_spec. apply SFltb_asym. Qed.

Lemma lt_le x y : JS.lt x y = true -> JS.le x y = true.
Proof. unfold JS.lt, JS.le. rewrite FloatAxioms.ltb_spec, FloatAxioms.leb_spec. apply SFltb_SFleb. Qed.

Lemma le_total x y :
  PrimFloat.is_nan x = false -> PrimFloat.is_nan y = false ->
  JS.lt x y = false -> JS.le y x = true.
Proof. unfold JS.lt, JS.le. rewrite FloatAxioms.ltb_spec, FloatAxioms.leb_spec, !is_nan_false. apply SFleb_total. Qed.

Lemma eqb_lt_apart x y v :
  (x =? v)%float = true -> JS.lt x y = true -> (y =? v)%float = false.
Proof. unfold JS.lt. rewrite !FloatAxioms.eqb_spec, FloatAxioms.ltb_spec. apply SFeqb_SFltb. Qed.

Lemma zeros_le x y :
  PrimFloat.is_zero x = true -> PrimFloat.is_zero y = true -> JS.le x y = true.
Proof.
  unfold PrimFloat.is_zero, JS.le. rewrite !FloatAxioms.eqb_spec, FloatAxioms.leb_spec. change (Prim2SF zero) with (S754_zero false).
  unfold SFeqb, SFleb.
  destruct (Prim2SF x) as [[]|[]| |[] ? ?], (Prim2SF y) as [[]|[]| |[] ? ?]; simpl; congruence.
Qed.

(** [Math.max] of two numbers that are not NaN is one of them, and at least both. *)
Lemma Math_max_spec a b :
  PrimFloat.is_nan a = false -> PrimFloat.is_nan b = false ->
  (JS.Math_max a b = a \/ JS.Math_max a b = b)
  /\ JS.le a (JS.Math_max a b) = true /\ JS.le b (JS.Math_max a b) = true.
Proof.
  intros Ha Hb. unfold JS.Math_max. rewrite Ha, Hb. cbn [orb].
  destruct (a <? b)%float eqn:Hlt; cbn [orb].
  - split; [auto|]. split; [apply lt_le; exact Hlt|apply le_refl; exact Hb].
  - destruct (PrimFloat.is_zero a) eqn:Hza; cbn [andb].
    + destruct (PrimFloat.is_zero b) eqn:Hzb; cbn [andb].
      * destruct (PrimFloat.get_sign a && negb (PrimFloat.get_sign b)).
        -- split; [auto|]. split; [apply zeros_le; assumption|apply le_refl; exact Hb].
        -- split; [auto|]. split; [apply le_refl; exact Ha|apply zeros_le; assumption].
      * split; [auto|]. split; [apply le_refl; exact Ha|apply le_total; assumption].
    + split; [auto|]. split; [apply le_refl; exact Ha|apply le_total; assumption].
Qed.

Lemma rounded_not_nan s m e : 0 <= m -> rounded s m e <> S754_nan.
Proof.
  intros Hm. destruct m as [|p|p]; unfold rounded; try lia; try congruence.
  destruct (e <=? emax - prec); congruence.
Qed.

Lemma shrink_not_nan (x : float) :
  JS.lt 0%float x = true -> PrimFloat.is_nan (x * SHRINK_FACTOR)%float = false.
Proof.
  unfold JS.lt, SHRINK_FACTOR. rewrite FloatAxioms.ltb_spec, is_nan_false, FloatAxioms.mul_spec, Prim2SF_zero, Prim2SF_shrink.
  pose proof (Prim2SF_valid x) as Hv.
  destruct (Prim2SF x) as [[]|[]| |[] m e]; try easy.
  intros _.
  apply valid_finite in Hv as [Hcan Hemax].
  pose proof (digits2_pos_bounds m) as [Hdlo Hdhi].
  unfold SF64mul, SFmul. cbn [xorb].
  set (P := Z.pos (m * 8556839292003942)).
  assert (P = Z.pos m * 8556839292003942) as HP by reflexivity.
  clearbody P.
  assert (2 ^ 52 <= P) as HPlo by lia.
  assert (Z.pos (digits2_pos m) = 53 -> 105 <= Zdigits2 P) as Hd53.
  { intros Hd. rewrite Hd in *.
    destruct (Zdigits2_bounds P ltac:(lia)) as (_ & Hhi & _).
    destruct (Z_le_gt_dec 105 (Zdigits2 P)); [lia|exfalso].
    assert (2 ^ Zdigits2 P <= 2 ^ 104) by (apply Z.pow_le_mono_r; lia). lia. }
  assert (0 < Zdigits2 P) as HdP by (apply Zdigits2_bounds; lia).
  pose proof (binary_round_aux_shift false P (e + -53) ltac:(lia)) as Hr.
  cbv zeta in Hr. rewrite fexp_eq in Hr.
  assert (0 < Z.max (Zdigits2 P + (e + -53) - 53) (-1074) - (e + -53)) as Hn.
  { destruct (Z.eq_dec (Z.pos (digits2_pos m)) 53) as [Hd|Hd]; [specialize (Hd53 Hd)|]; lia. }
  destruct (Hr Hn) as (m1 & Hm1 & ->). clear Hr.
  assert (0 <= m1).
  { assert (0 <= P / 2 ^ (Z.max (Zdigits2 P + (e + -53) - 53) (-1074) - (e + -53)))
      by (apply Z.div_pos; lia).
    destruct Hm1 as [->|[-> _]]; lia. }
  destruct (m1 <? 2 ^ 53); apply rounded_not_nan; lia.
Qed.

(** ** The retry loop *)

(** *** The shrink step on numbers *)

Lemma SFltb_SFleb_trans x y z : SFltb x y = true -> SFleb y z = true -> SFltb x z = true.
Proof.
  unfold SFltb, SFleb. by_cases x; by_cases y; by_cases z; simpl; try congruence; order_cases.
Qed.

Lemma lt_le_trans x y z : JS.lt x y = true -> JS.le y z = true -> JS.lt x z = true.
Proof.
  unfold JS.lt, JS.le. rewrite !FloatAxioms.ltb_spec, FloatAxioms.leb_spec.
  apply SFltb_SFleb_trans.
Qed.

Lemma shrunk_floored b :
  JS.lt 0%float b.1 = true -> JS.le b.1 b.2 = true -> floored (shrunk_bounds b).
Proof.
  intros Hpos Hle. unfold floored, shrunk_bounds. cbn [fst snd].
  pose proof (shrink_not_nan b.1 Hpos) as Hn1.
  pose proof (shrink_not_nan b.2 (lt_le_trans _ _ _ Hpos Hle)) as Hn2.
  unfold SHRINK_FACTOR in *.
  destruct (Math_max_spec (b.1 * 0.95)%float 1%float Hn1 eq_refl) as (_ & _ & Hone).
  split; [exact Hone|].
  destruct (le_not_nan _ _ Hone) as [_ Hnm].
  destruct (Math_max_spec (b.2 * 0.95)%float _ Hn2 Hnm) as (_ & _ & Hge). exact Hge.
Qed.

Lemma one_positive : JS.lt 0%float 1%float = true.
Proof. reflexivity. Qed.

Lemma shrunk_non_increasing b : floored b -> non_increasing b (shrunk_bounds b).
Proof.
  intros [Hone Hle]. unfold non_increasing, shrunk_bounds. cbn [fst snd].
  pose proof (le_trans _ _ _ Hone Hle) as Hone2.
  pose proof (shrink_le b.1 Hone) as Hs1. pose proof (shrink_le b.2 Hone2) as Hs2.
  destruct (le_not_nan _ _ Hs1) as [Hn1 _]. destruct (le_not_nan _ _ Hs2) as [Hn2 _].
  destruct (Math_max_spec (b.1 * 0.95)%float 1%float Hn1 eq_refl) as (Hcase & _ & Hge).
  assert (JS.le (JS.Math_max (b.1 * 0.95)%float 1%float) b.1 = true) as Hmin.
  { destruct Hcase as [->| ->]; assumption. }
  split; [exact Hmin|].
  destruct (le_not_nan _ _ Hge) as [_ Hnm].
  destruct (Math_max_spec (b.2 * 0.95)%float _ Hn2 Hnm) as ([->| ->] & _ & _).
  - exact Hs2.
  - exact (le_trans _ _ _ Hmin Hle).
Qed.

Lemma floored_positive b : floored b -> JS.lt 0%float b.1 = true.
Proof. intros [Hone _]. exact (lt_le_trans _ _ _ one_positive Hone). Qed.

Lemma shrink_chain l :
  Sorted next_attempt l ->
  forall first, head l = Some first -> floored (bounds_of first) ->
  Sorted non_increasing (map bounds_of l) /\ Forall floored (map bounds_of l).
Proof.
  induction 1 as [|a l Hs IH Hhd]; intros first Hfirst Hfl; [discriminate|].
  injection Hfirst as ->. destruct l as [|b l].
  - split; [repeat constructor|constructor; [exact Hfl|constructor]].
  - inversion Hhd as [|? ? [_ Hb]]; subst.
    assert (floored (bounds_of b)) as Hflb.
    { rewrite Hb. apply shrunk_floored; [apply floored_positive; exact Hfl|apply Hfl]. }
    destruct (IH b eq_refl Hflb) as [IH1 IH2].
    split; constructor; try assumption.
    constructor. rewrite Hb. apply shrunk_non_increasing. exact Hfl.
Qed.


(** *** One answer of the engine, and the invariant it keeps *)

Section Loop.
Context `{Collaborators}.

Lemma in_flight_Some r h :
  in_flight r = Some h -> run_layout r = Some h /\ cloud_state h = Started.
Proof.
  unfold in_flight. destruct (run_layout r) as [h'|]; [|discriminate].
  destruct (cloud_state h') eqn:E; try discriminate. intros [= ->]. auto.
Qed.

Lemma engine_completes_step r h computedWords g :
  in_flight r = Some h ->
  let r' := engine_completes computedWords g r in
  let fs := shrunk_bounds (cloud_fontSizes h) in
  let formatted := formatWords (run_options r) (run_sortedWords r) fs g in
  run_selection r' = run_selection r
  /\ run_options r' = run_options r
  /\ run_callbacks r' = run_callbacks r
  /\ run_size r' = run_size r
  /\ run_sortedWords r' = run_sortedWords r
  /\ run_effects r' = run_effects r ++ after_result r h computedWords g
  /\ in_flight r' =
       (if retries (run_sortedWords r) (cloud_attempts h) computedWords
        then Some {| cloud_attempts := cloud_attempts h + 1; cloud_fontSizes := fs;
                     cloud_words := fst formatted; cloud_state := Started |}
        else None)
  /\ run_random r' =
       (if retries (run_sortedWords r) (cloud_attempts h) computedWords
        then snd formatted else g).
Proof.
  intros [Hl Hs]%in_flight_Some. cbv zeta.
  unfold engine_completes, after_result. rewrite Hl, Hs.
  unfold onDone, retries. cbn [run_sortedWords emit with_layout with_random].
  destruct (negb _ && _) eqn:Hretry.
  - unfold draw, shrunk_bounds, SHRINK_FACTOR.
    destruct (cloud_attempts h =? MAX_LAYOUT_ATTEMPTS);
      cbn -[formatWords JS.Math_max PrimFloat.mul warning_message];
      destruct (formatWords _ _ _ _) as [ws g'] eqn:Hf;
      cbn -[formatWords JS.Math_max PrimFloat.mul warning_message];
      rewrite <- ?app_assoc; repeat split; reflexivity.
  - unfold in_flight. cbn. rewrite <- ?app_assoc. repeat split; reflexivity.
Qed.

Lemma Sorted_snoc {A} (R : A -> A -> Prop) l x y :
  Sorted R (l ++ [x]) -> R x y -> Sorted R ((l ++ [x]) ++ [y]).
Proof.
  induction l as [|a l IH]; simpl; intros Hs Hr.
  - repeat constructor. exact Hr.
  - inversion Hs as [|? ? Hs' Hhd]; subst. constructor; [apply IH; assumption|].
    destruct l; simpl in *; inversion Hhd; subst; constructor; assumption.
Qed.

Lemma projections_step r h c g :
  in_flight r = Some h ->
  let r' := engine_completes c g r in
  let a := cloud_attempts h in
  let fs := shrunk_bounds (cloud_fontSizes h) in
  let retry := retries (run_sortedWords r) a c in
  attempts_made r' =
    attempts_made r
    ++ (if retry
        then [(a + 1, fs, (formatWords (run_options r) (run_sortedWords r) fs g).1)]
        else [])
  /\ results r' = results r ++ [c]
  /\ warnings r' =
       warnings r
       ++ (if retry && (a =? MAX_LAYOUT_ATTEMPTS)
           then [warning_message (unplaced (run_sortedWords r) c) a] else [])
  /\ rendered r' = rendered r ++ (if retry then [] else [c]).
Proof.
  intros Hf. destruct (engine_completes_step r h c g Hf) as (_ & _ & _ & _ & _ & He & _).
  cbv zeta. unfold attempts_made, results, warnings, rendered. rewrite He, !omap_app.
  unfold after_result, unplaced.
  destruct (retries _ _ _); [destruct (_ =? _)|]; repeat split; reflexivity.
Qed.

Lemma pipeline_transcript_ok selection mergedOptions mergedCallbacks size words maxWords :
  transcript_ok (pipeline selection mergedOptions mergedCallbacks size words maxWords).
Proof.
  unfold transcript_ok, pipeline, draw.
  cbn -[formatWords].
  destruct (formatWords _ _ _ _) as [ws g] eqn:Hf.
  exists [], (1, fontSizes mergedOptions, ws).
  cbn -[formatWords]. unfold MAX_LAYOUT_ATTEMPTS. repeat split; try reflexivity; try lia.
  - repeat constructor.
  - eexists. repeat split; reflexivity.
  - repeat constructor. eexists. unfold words_of, bounds_of. cbn -[formatWords].
    rewrite Hf. reflexivity.
  - constructor.
Qed.

Lemma attempt_numbers l :
  Sorted next_attempt l ->
  forall i x first, head l = Some first -> l !! i = Some x ->
                    number_of x = number_of first + Z.of_nat i.
Proof.
  induction 1 as [|a l Hs IH Hhd]; intros i x first Hfirst Hi; [discriminate|].
  injection Hfirst as ->. destruct i as [|i]; simpl in Hi.
  - injection Hi as ->. lia.
  - destruct l as [|b l]; [discriminate|].
    inversion Hhd as [|? ? [Hn _]]; subst.
    rewrite (IH i x b eq_refl Hi). lia.
Qed.

Lemma transcript_step r h c g :
  transcript_ok r -> in_flight r = Some h -> transcript_ok (engine_completes c g r).
Proof.
  intros (earlier & current & Hmade & Hnum & Hmax & Hsorted & Hfirst & Hfmt & Hwarn & Hfl) Hf.
  rewrite Hf in Hfl. destruct Hfl as (Hcur & Hres & Hfail & Hrend).
  destruct (engine_completes_step r h c g Hf) as (_ & Hopt & _ & _ & Hsw & _ & Hfl' & _).
  destruct (projections_step r h c g Hf) as (Hmade' & Hres' & Hwarn' & Hrend').
  cbv zeta in *.
  assert (number_of current = cloud_attempts h) as Ha by (rewrite <- Hcur; reflexivity).
  assert (bounds_of current = cloud_fontSizes h) as Hb by (rewrite <- Hcur; reflexivity).
  unfold MAX_LAYOUT_ATTEMPTS in *.
  unfold transcript_ok. rewrite Hopt, Hsw.
  assert (warnings (engine_completes c g r) = expected_warnings (engine_completes c g r)) as Hw.
  { rewrite Hwarn', Hwarn. unfold expected_warnings. rewrite Hres', Hsw.
    assert (length (results r) = Z.to_nat (cloud_attempts h - 1)) as Hlen by lia.
    unfold retries, failing, MAX_LAYOUT_ATTEMPTS in *.
    destruct (Z.eqb_spec (cloud_attempts h) 10) as [Hten|Hten].
    - rewrite Hten in *. rewrite (lookup_ge_None_2 (results r) 9) by lia.
      rewrite lookup_app_r by lia. replace (9 - length (results r))%nat with 0%nat by lia.
      cbn [lookup list_lookup]. rewrite andb_true_r.
      destruct (negb _); reflexivity.
    - rewrite andb_false_r, app_nil_r.
      destruct (Z_lt_le_dec (cloud_attempts h) 10).
      + rewrite (lookup_ge_None_2 (results r) 9) by lia.
        rewrite (lookup_ge_None_2 (results r ++ [c]) 9); [reflexivity|].
        rewrite length_app. simpl. lia.
      + rewrite lookup_app_l by lia. reflexivity. }
  destruct (retries (run_sortedWords r) (cloud_attempts h) c) eqn:Hretry.
  - (* shrink and retry *)
    apply andb_prop in Hretry as [Hfailing Hle]. apply Z.leb_le in Hle.
    eexists (attempts_made r), _. rewrite Hfl'.
    split; [exact Hmade'|]. rewrite Hmade'.
    split; [rewrite length_app; unfold number_of; cbn; lia|].
    split; [unfold number_of; cbn; lia|].
    split.
    { rewrite Hmade. apply Sorted_snoc; [rewrite Hmade in Hsorted; exact Hsorted|].
      split; [unfold number_of at 1; cbn; lia|].
      unfold bounds_of at 1. cbn. rewrite Hb. reflexivity. }
    split.
    { destruct Hfirst as (first & Hhd & Hbf). exists first. split; [|exact Hbf].
      rewrite Hmade in *. destruct earlier; exact Hhd. }
    split.
    { apply Forall_app. split; [exact Hfmt|]. repeat constructor. eexists. reflexivity. }
    split; [exact Hw|].
    split; [reflexivity|]. rewrite Hres', Hrend'.
    split; [rewrite length_app; unfold number_of; cbn; lia|].
    split; [|rewrite Hrend; reflexivity].
    apply Forall_app. split; [exact Hfail|]. repeat constructor. exact Hfailing.
  - (* accept *)
    exists earlier, current. rewrite Hfl', Hmade', app_nil_r.
    split; [exact Hmade|]. split; [exact Hnum|]. split; [exact Hmax|].
    split; [exact Hsorted|]. split; [exact Hfirst|]. split; [exact Hfmt|].
    split; [exact Hw|].
    exists (results r), c. rewrite Hres', Hrend', Hrend.
    split; [reflexivity|].
    split; [rewrite length_app; simpl; lia|].
    split; [exact Hfail|]. split; [reflexivity|].
    intros Hfailing. unfold retries, MAX_LAYOUT_ATTEMPTS in Hretry. unfold failing in Hfailing.
    rewrite Hfailing in Hretry. simpl in Hretry. apply Z.leb_gt in Hretry.
    unfold MAX_LAYOUT_ATTEMPTS. lia.
Qed.

Lemma layout_loop_finishes fuel engine r :
  transcript_ok r ->
  (forall h, in_flight r = Some h -> 12 - cloud_attempts h <= Z.of_nat fuel) ->
  exists finished,
    layout_loop fuel engine r = Some finished
    /\ transcript_ok finished /\ in_flight finished = None
    /\ run_options finished = run_options r
    /\ run_sortedWords finished = run_sortedWords r.
Proof.
  revert r. induction fuel as [|fuel IH]; intros r Hok Hfuel.
  - destruct (in_flight r) as [h|] eqn:Hf.
    + exfalso. specialize (Hfuel h eq_refl).
      destruct Hok as (? & current & _ & _ & Hmax & _ & _ & _ & _ & Hfl).
      rewrite Hf in Hfl. destruct Hfl as (Hcur & _).
      assert (number_of current = cloud_attempts h) by (rewrite <- Hcur; reflexivity).
      unfold MAX_LAYOUT_ATTEMPTS in *. lia.
    + exists r. simpl. rewrite Hf. auto.
  - destruct (in_flight r) as [h|] eqn:Hf.
    + simpl. rewrite Hf.
      destruct (engine (cloud_attempts h) (cloud_words h) (run_random r)) as [c g].
      pose proof (transcript_step r h c g Hok Hf) as Hok'.
      destruct (engine_completes_step r h c g Hf) as (_ & Hopt & _ & _ & Hsw & _ & Hfl' & _).
      destruct (IH (engine_completes c g r) Hok') as (fin & Hloop & Hfin & Hnone & Ho & Hs).
      { intros h' Hh'. rewrite Hfl' in Hh'. specialize (Hfuel h eq_refl).
        destruct (retries _ _ _); [|discriminate]. injection Hh' as <-. cbn. lia. }
      exists fin. rewrite Ho, Hs. auto.
    + exists r. simpl. rewrite Hf. auto.
Qed.

Lemma run_finishes engine selection mergedOptions mergedCallbacks size words maxWords :
  exists finished,
    layout_loop 11 engine
      (pipeline selection mergedOptions mergedCallbacks size words maxWords)
    = Some finished
    /\ transcript_ok finished /\ in_flight finished = None
    /\ run_options finished = mergedOptions
    /\ run_sortedWords finished = sortedWords words maxWords.
Proof.
  destruct (layout_loop_finishes 11 engine
              (pipeline selection mergedOptions mergedCallbacks size words maxWords))
    as (fin & Hloop & Hok & Hnone & Ho & Hs).
  - apply pipeline_transcript_ok.
  - unfold pipeline, draw. cbn -[formatWords].
    destruct (formatWords _ _ _ _). cbn. intros h [= <-]. cbn. lia.
  - exists fin. split; [exact Hloop|]. split; [exact Hok|]. split; [exact Hnone|].
    rewrite Ho, Hs. unfold pipeline, draw. cbn -[formatWords].
    destruct (formatWords _ _ _ _). split; reflexivity.
Qed.
End Loop.


(** *** Invariants of the loop *)

Section LoopInvariant.
Context `{Collaborators}.

(** What [pipeline] leaves behind when it returns: the first attempt,
    in flight on the configured bounds. *)
Lemma pipeline_start selection mergedOptions mergedCallbacks size words maxWords :
  let r := pipeline selection mergedOptions mergedCallbacks size words maxWords in
  let seeded :=
    if deterministic mergedOptions
    then seedrandom (Some "deterministic"%string) else seedrandom None in
  let first :=
    formatWords mergedOptions (sortedWords words maxWords) (fontSizes mergedOptions) seeded in
  run_options r = mergedOptions
  /\ run_sortedWords r = sortedWords words maxWords
  /\ run_random r = first.2
  /\ run_effects r = [CreateCloud 1 (fontSizes mergedOptions) first.1]
  /\ in_flight r = Some {| cloud_attempts := 1; cloud_fontSizes := fontSizes mergedOptions;
                           cloud_words := first.1; cloud_state := Started |}.
Proof.
  cbv zeta. unfold pipeline, draw. cbn [run_options run_sortedWords run_random].
  destruct (formatWords mergedOptions (sortedWords words maxWords) (fontSizes mergedOptions) _)
    as [ws g].
  repeat split; reflexivity.
Qed.

(** A property that every answer of the engine keeps holds at the end
    of the loop. *)
Lemma layout_loop_invariant (I : Run -> Prop) (engine : Engine) :
  (forall r h,
     I r -> in_flight r = Some h ->
     let answer := engine (cloud_attempts h) (cloud_words h) (run_random r) in
     I (engine_completes answer.1 answer.2 r)) ->
  forall fuel r finished,
    I r -> layout_loop fuel engine r = Some finished -> I finished.
Proof.
  intros Hstep fuel. induction fuel as [|fuel IH]; intros r fin Hr Hloop.
  - cbn [layout_loop] in Hloop. destruct (in_flight r); [discriminate|].
    injection Hloop as <-. exact Hr.
  - cbn [layout_loop] in Hloop. destruct (in_flight r) as [h|] eqn:Hf.
    + specialize (Hstep r h Hr Hf). cbv zeta in Hstep.
      destruct (engine (cloud_attempts h) (cloud_words h) (run_random r)) as [c g].
      exact (IH _ _ Hstep Hloop).
    + injection Hloop as <-. exact Hr.
Qed.



Lemma generators_length engine o sorted g made :
  length (generators engine o sorted g made) = length made.
Proof.
  revert g. induction made as [|y made IH]; intros g; [reflexivity|].
  cbn [generators length]. rewrite IH. reflexivity.
Qed.

End LoopInvariant.
(** ** The claims about the retry loop *)

Lemma Sorted_lookup {A} (R : A -> A -> Prop) (l : list A) i x y :
  Sorted R l -> l !! i = Some x -> l !! S i = Some y -> R x y.
Proof.
  intros Hs. revert i. induction Hs as [|a l Hs IH Hhd]; intros i Hx Hy; [discriminate|].
  destruct i as [|i]; simpl in Hx, Hy.
  - injection Hx as ->. destruct l; [discriminate|]. injection Hy as ->.
    inversion Hhd; assumption.
  - exact (IH i Hx Hy).
Qed.

Section LoopClaims.
Context `{Collaborators}.

Lemma format_each_frame o fontScale ws g :
  map without_rotation (format_each o fontScale ws g).1
  = map (formatted o fontScale 0%float) ws.
Proof.
  revert g. induction ws as [|d ws IH]; intros g; [reflexivity|].
  cbn [format_each]. destruct (rotateWord o g) as [angle g1].
  specialize (IH g1). destruct (format_each o fontScale ws g1) as [others g2].
  cbn [fst map] in *. rewrite IH. reflexivity.
Qed.


(** An answer is accepted (its words go to the renderer and nothing
    stays in flight) exactly when every sorted word was placed or the
    attempt number exceeds [MAX_LAYOUT_ATTEMPTS]. *)
Lemma accepted_exactly_when r h computedWords g :
  in_flight r = Some h ->
  (rendered (engine_completes computedWords g r) = rendered r ++ [computedWords]
   /\ in_flight (engine_completes computedWords g r) = None)
  <-> (length computedWords = length (run_sortedWords r)
       \/ MAX_LAYOUT_ATTEMPTS < cloud_attempts h).
Proof.
  intros Hf.
  destruct (engine_completes_step r h computedWords g Hf) as (_ & _ & _ & _ & _ & _ & Hfl & _).
  destruct (projections_step r h computedWords g Hf) as (_ & _ & _ & Hrend).
  cbv zeta in *. rewrite Hfl, Hrend. unfold retries.
  destruct (Nat.eqb_spec (length (run_sortedWords r)) (length computedWords)) as [He|Hne];
    destruct (Z.leb_spec (cloud_attempts h) MAX_LAYOUT_ATTEMPTS) as [Hle|Hgt]; cbn [negb andb];
    (split; [intros [Hr Hn]|intros Hc]); auto; try lia; try discriminate.
Qed.

(** Claim C1, as amended. Every run ends. An attempt is accepted (it
    is the last one, and its answer is what the renderer gets) exactly
    when all sorted words were placed or its number exceeds
    [MAX_LAYOUT_ATTEMPTS = 10]; attempts are numbered from one, so at
    most ten attempts are retried and at most eleven are made, the
    eleventh being accepted whatever it placed. *)
Theorem accepted_when_placed_or_past_ten engine selection mergedOptions mergedCallbacks
        size words maxWords :
  exists finished,
    layout_loop 11 engine
      (pipeline selection mergedOptions mergedCallbacks size words maxWords)
    = Some finished
    /\ (length (attempts_made finished) <= 11)%nat
    /\ length (results finished) = length (attempts_made finished)
    /\ forall i x computedWords,
         attempts_made finished !! i = Some x ->
         results finished !! i = Some computedWords ->
         number_of x = Z.of_nat i + 1
         /\ ((S i = length (attempts_made finished)
              /\ rendered finished = [computedWords])
             <-> (length computedWords = length (sortedWords words maxWords)
                  \/ MAX_LAYOUT_ATTEMPTS < number_of x)).
Proof.
  destruct (run_finishes engine selection mergedOptions mergedCallbacks size words maxWords)
    as (fin & Hloop & Hok & Hnone & _ & Hsw).
  exists fin. split; [exact Hloop|].
  destruct Hok as (earlier & current & Hmade & Hnum & Hmax & Hsorted & Hfirst & _ & _ & Hfl).
  rewrite Hnone, Hsw in Hfl.
  destruct Hfl as (failed & final & Hres & Hlen & Hfailed & Hrend & Hforced).
  unfold MAX_LAYOUT_ATTEMPTS in *.
  split; [lia|]. split; [exact Hlen|].
  intros i x c Hx Hc. destruct Hfirst as (first & Hhd & Hone & _).
  pose proof (attempt_numbers _ Hsorted i x first Hhd Hx) as Hi.
  split; [lia|].
  rewrite Hres in Hc, Hlen. rewrite length_app in Hlen. cbn in Hlen.
  assert (number_of current = Z.of_nat (length failed) + 1) as Hlast by lia.
  destruct (decide (i = length failed)) as [->|Hne].
  - (* the last attempt *)
    rewrite lookup_app_r, Nat.sub_diag in Hc by lia. injection Hc as <-.
    split; [|intros _; split; [lia|exact Hrend]].
    intros _. unfold failing in Hforced.
    destruct (Nat.eqb_spec (length (sortedWords words maxWords)) (length final)) as [He|Hn];
      [left; lia|right]. specialize (Hforced eq_refl). lia.
  - (* an earlier attempt: its answer was failing and its number at most ten *)
    pose proof (lookup_lt_Some _ _ _ Hc) as Hlt. rewrite length_app in Hlt. cbn in Hlt.
    rewrite lookup_app_l in Hc by lia.
    pose proof (proj1 (Forall_lookup _ _) Hfailed i c Hc) as Hfail. cbn beta in Hfail.
    unfold failing in Hfail. apply negb_true_iff, Nat.eqb_neq in Hfail.
    split; [intros [? _]; lia|]. intros [?|?]; [congruence|lia].
Qed.

(** Claim C5. Whenever the engine's answer to an attempt triggers a
    retry, a next attempt follows, numbered one higher, and its bounds
    are exactly [newMin = max(min * 0.95, 1)] and
    [newMax = max(max * 0.95, newMin)] of the bounds just tried; every
    two successive attempts of a run are related in this way. *)
Theorem retry_bounds_are_the_shrunk_bounds engine selection mergedOptions
        mergedCallbacks size words maxWords :
  exists finished,
    layout_loop 11 engine
      (pipeline selection mergedOptions mergedCallbacks size words maxWords)
    = Some finished
    /\ Sorted next_attempt (attempts_made finished)
    /\ forall i x computedWords,
         attempts_made finished !! i = Some x ->
         results finished !! i = Some computedWords ->
         retries (sortedWords words maxWords) (number_of x) computedWords = true ->
         exists y, attempts_made finished !! S i = Some y
                   /\ number_of y = number_of x + 1
                   /\ bounds_of y = shrunk_bounds (bounds_of x).
Proof.
  destruct (run_finishes engine selection mergedOptions mergedCallbacks size words maxWords)
    as (fin & Hloop & Hok & Hnone & _ & Hsw).
  exists fin. split; [exact Hloop|].
  destruct Hok as (earlier & current & Hmade & Hnum & Hmax & Hsorted & Hfirst & _ & _ & Hfl).
  split; [exact Hsorted|].
  rewrite Hnone in Hfl. destruct Hfl as (failed & final & Hres & Hlen & Hfailed & _ & Hforced).
  intros i x c Hx Hc Hretry.
  destruct Hfirst as (first & Hhd & Hone & _).
  pose proof (attempt_numbers _ Hsorted i x first Hhd Hx) as Hi.
  rewrite Hres in Hc, Hlen. rewrite length_app in Hlen. cbn in Hlen.
  unfold retries in Hretry. apply andb_prop in Hretry as [Hfailing Hle].
  apply Z.leb_le in Hle. unfold MAX_LAYOUT_ATTEMPTS in *.
  destruct (lookup_lt_is_Some_2 (attempts_made fin) (S i)) as [y Hy].
  { pose proof (lookup_lt_Some _ _ _ Hc) as Hlt. rewrite length_app in Hlt. cbn in Hlt.
    destruct (decide (i = length failed)) as [->|Hne]; [exfalso|lia].
    rewrite lookup_app_r, Nat.sub_diag in Hc by lia. injection Hc as <-.
    rewrite Hsw in Hforced. unfold failing in Hforced. specialize (Hforced Hfailing).
    rewrite Hmade in Hx. rewrite Hmade, length_app in Hlen. cbn in Hlen.
    assert (length failed = length earlier) as Hsame by lia.
    rewrite Hsame, lookup_app_r, Nat.sub_diag in Hx by reflexivity.
    injection Hx as <-. lia. }
  exists y. split; [exact Hy|]. exact (Sorted_lookup _ _ _ _ _ Hsorted Hx Hy).
Qed.

(** Claim C4, as amended. From starting bounds with
    [0 < fontSizes[0] <= fontSizes[1]], every retry has bounds
    [1 <= min <= max], and from the second attempt on the bounds never
    increase in either component; when moreover [1 <= fontSizes[0]]
    this holds from the first attempt on. *)
Theorem bounds_stay_above_one_and_never_increase engine selection mergedOptions
        mergedCallbacks size words maxWords :
  JS.lt 0%float (fontSizes mergedOptions).1 = true ->
  JS.le (fontSizes mergedOptions).1 (fontSizes mergedOptions).2 = true ->
  exists finished,
    layout_loop 11 engine
      (pipeline selection mergedOptions mergedCallbacks size words maxWords)
    = Some finished
    /\ let bounds := map bounds_of (attempts_made finished) in
       Forall floored (tail bounds)
       /\ Sorted non_increasing (tail bounds)
       /\ (JS.le 1%float (fontSizes mergedOptions).1 = true ->
           Forall floored bounds /\ Sorted non_increasing bounds).
Proof.
  intros Hpos Hle.
  destruct (run_finishes engine selection mergedOptions mergedCallbacks size words maxWords)
    as (fin & Hloop & Hok & _ & Hopt & _).
  exists fin. split; [exact Hloop|]. cbv zeta.
  destruct Hok as (earlier & current & _ & _ & _ & Hsorted & (first & Hhd & _ & Hb) & _).
  rewrite Hopt in Hb.
  destruct (attempts_made fin) as [|a rest]; [discriminate|].
  injection Hhd as ->. cbn [map tail].
  assert (Forall floored (map bounds_of rest) /\ Sorted non_increasing (map bounds_of rest))
    as [Hall Hchain].
  { destruct rest as [|b rest]; [split; constructor|].
    inversion Hsorted as [|? ? Hs Hrel]; subst. inversion Hrel as [|? ? [_ Hbb]]; subst.
    destruct (shrink_chain (b :: rest) Hs b eq_refl) as [? ?]; [|auto].
    rewrite Hbb, Hb. apply shrunk_floored; assumption. }
  split; [exact Hall|]. split; [exact Hchain|].
  intros Hone.
  destruct (shrink_chain (first :: rest) Hsorted first eq_refl) as [? ?]; [|auto].
  rewrite Hb. split; assumption.
Qed.

(** Claim C6, as amended. Running out of attempts is no failure: the
    run ends, and the renderer is called exactly once, with the words
    of the last answer of the engine. Every answer before the last left
    words unplaced, there are at most ten of them, and a last answer
    that leaves words unplaced is the eleventh. The warning is emitted
    exactly once when the tenth answer left words unplaced and not at
    all otherwise; it states the number of words that the tenth answer
    left unplaced, then the three remedies. So a run whose rendered
    result is incomplete has warned, once. *)
Theorem exhausted_run_warns_once_and_renders engine selection mergedOptions
        mergedCallbacks size words maxWords :
  exists finished failed final,
    layout_loop 11 engine
      (pipeline selection mergedOptions mergedCallbacks size words maxWords)
    = Some finished
    /\ results finished = failed ++ [final]
    /\ Forall (fun c => failing (sortedWords words maxWords) c = true) failed
    /\ (length failed <= 10)%nat
    /\ (failing (sortedWords words maxWords) final = true -> length failed = 10%nat)
    /\ rendered finished = [final]
    /\ warnings finished =
         match failed !! 9%nat with
         | Some tenth =>
             [("Unable to layout "
               ++ pretty (Z.of_nat (length (sortedWords words maxWords))
                          - Z.of_nat (length tenth))
               ++ " word(s) after 10 attempts.  " ++ remedies)%string]
         | None => []
         end
    /\ (failing (sortedWords words maxWords) final = true ->
        exists message, warnings finished = [message]).
Proof.
  destruct (run_finishes engine selection mergedOptions mergedCallbacks size words maxWords)
    as (fin & Hloop & Hok & Hnone & _ & Hsw).
  destruct Hok as (earlier & current & Hmade & Hnum & Hmax & _ & _ & _ & Hwarn & Hfl).
  rewrite Hnone in Hfl.
  destruct Hfl as (failed & final & Hres & Hlen & Hfailed & Hrend & Hforced).
  exists fin, failed, final. rewrite Hsw in *.
  assert (length failed + 1 = length (attempts_made fin))%nat as Hcount
    by (rewrite <- Hlen, Hres, length_app; reflexivity).
  unfold MAX_LAYOUT_ATTEMPTS in *.
  assert (length failed <= 10)%nat as Hten by lia.
  assert (failing (sortedWords words maxWords) final = true -> length failed = 10%nat)
    as Hlast by (intros Hf; specialize (Hforced Hf); lia).
  assert (warnings fin =
          match failed !! 9%nat with
          | Some tenth =>
              [("Unable to layout "
                ++ pretty (Z.of_nat (length (sortedWords words maxWords))
                           - Z.of_nat (length tenth))
                ++ " word(s) after 10 attempts.  " ++ remedies)%string]
          | None => []
          end) as Hwarnings.
  { rewrite Hwarn. unfold expected_warnings. rewrite Hsw, Hres.
    destruct (failed !! 9%nat) as [tenth|] eqn:Htenth.
    - rewrite (lookup_app_l_Some _ _ _ _ Htenth).
      rewrite (proj1 (Forall_lookup _ _) Hfailed _ _ Htenth). reflexivity.
    - apply lookup_ge_None in Htenth.
      destruct (decide (length failed = 9%nat)) as [Hnine|Hless].
      + rewrite lookup_app_r, Hnine by lia. cbn.
        destruct (failing (sortedWords words maxWords) final) eqn:Hf; [|reflexivity].
        specialize (Hlast eq_refl). lia.
      + rewrite lookup_ge_None_2; [reflexivity|]. rewrite length_app. cbn. lia. }
  repeat (split; [assumption|]).
  intros Hf. specialize (Hlast Hf). rewrite Hwarnings.
  destruct (lookup_lt_is_Some_2 failed 9%nat ltac:(lia)) as [tenth ->]. eauto.
Qed.

End LoopClaims.

(** *** The claims at concrete inputs *)

(** Claim C1 fails on the code: with an engine that never places the
    two sorted words, [draw] runs eleven times, numbered one to eleven.
    The tenth answer draws the warning and one more attempt, and what is
    rendered is the eleventh answer; the loop is not over after ten
    answers. *)
Lemma eleven_layout_attempts :
  let start :=
    pipeline (H := demo) tt (demo_options (4%float, 32%float))
      (defaultCallbacks (H := demo)) demo_size
      [word "a" 10%float; word "b" 1%float] 100 in
  let run := layout_loop 11 never_places start in
  (map number_of ∘ attempts_made) <$> run = Some [1; 2; 3; 4; 5; 6; 7; 8; 9; 10; 11]
  /\ (length ∘ results) <$> run = Some 11%nat
  /\ warnings <$> run = Some [warning_message 2 10]
  /\ rendered <$> run = Some [[]]
  /\ layout_loop 10 never_places start = None.
Proof. vm_compute. repeat split. Qed.

(** Claim C6 fails on the code: the warning belongs to the tenth
    answer, the render to the eleventh. Of two sorted words, let the
    engine place one in the tenth attempt. The warning then reports one
    word unplaced, after which an eleventh attempt is made and rendered:
    with both words placed when the engine places them then (a
    warning, although nothing is missing from what is rendered), with
    none when it places none (two words missing, one reported). *)
Lemma warning_counts_the_tenth_answer :
  let start :=
    pipeline (H := demo) tt (demo_options (4%float, 32%float))
      (defaultCallbacks (H := demo)) demo_size
      [word "a" 10%float; word "b" 1%float] 100 in
  let late := layout_loop 11 places_at_last start in
  let once := layout_loop 11 places_once start in
  length (sortedWords [word "a" 10%float; word "b" 1%float] 100) = 2%nat
  /\ (length ∘ results) <$> late = Some 11%nat
  /\ warnings <$> late = Some [warning_message 1 10]
  /\ (map length ∘ rendered) <$> late = Some [2%nat]
  /\ (length ∘ results) <$> once = Some 11%nat
  /\ warnings <$> once = Some [warning_message 1 10]
  /\ (map length ∘ rendered) <$> once = Some [0%nat].
Proof. vm_compute. repeat split. Qed.


(** Claim C4 fails on the code: from the bounds [[0.5, 0.5]], which are
    positive and ordered, the first retry has the bounds [[1, 1]]: both
    components went up, and the first attempt was below [1]. *)
Lemma bounds_below_one_increase :
  JS.lt 0%float 0.5%float = true
  /\ JS.le 0.5%float 0.5%float = true
  /\ exists finished first second,
       layout_loop 11 never_places
         (pipeline (H := demo) tt (demo_options (0.5%float, 0.5%float))
            (defaultCallbacks (H := demo)) demo_size [word "a" 10%float] 100)
       = Some finished
       /\ attempts_made finished !! 0%nat = Some first
       /\ attempts_made finished !! 1%nat = Some second
       /\ bounds_of first = (0.5%float, 0.5%float)
       /\ bounds_of second = (1%float, 1%float)
       /\ ~ non_increasing (bounds_of first) (bounds_of second)
       /\ ~ floored (bounds_of first).
Proof.
  split; [reflexivity|]. split; [reflexivity|].
  eexists _, _, _. split; [vm_compute; reflexivity|].
  split; [vm_compute; reflexivity|]. split; [vm_compute; reflexivity|].
  split; [reflexivity|]. split; [reflexivity|].
  split; intros [Hmin _]; vm_compute in Hmin; discriminate.
Qed.

Lemma bounds_stay_above_one_and_never_increase_witness :
  JS.lt 0%float 4%float = true
  /\ JS.le 4%float 32%float = true
  /\ exists finished,
       layout_loop 11 never_places
         (pipeline (H := demo) tt (demo_options (4%float, 32%float))
            (defaultCallbacks (H := demo)) demo_size [word "a" 10%float] 100)
       = Some finished
       /\ let bounds := map bounds_of (attempts_made finished) in
          Forall floored (tail bounds)
          /\ Sorted non_increasing (tail bounds)
          /\ (JS.le 1%float 4%float = true ->
              Forall floored bounds /\ Sorted non_increasing bounds).
Proof.
  split; [reflexivity|]. split; [reflexivity|].
  apply (bounds_stay_above_one_and_never_increase (H := demo) never_places tt
           (demo_options (4%float, 32%float)) (defaultCallbacks (H := demo)) demo_size
           [word "a" 10%float] 100); reflexivity.
Defined.
(** ** The word selector *)

Lemma SortCompare_by_value x y :
  JS.le (SortCompare by_value_descending x y) 0%float
  = negb (JS.lt (value x) (value y)).
Proof.
  unfold SortCompare, by_value_descending, descending, JS.gt, JS.ge.
  destruct (JS.lt (value y) (value x)) eqn:Hyx.
  - rewrite (lt_asym _ _ Hyx). reflexivity.
  - unfold JS.lt. destruct (value x <? value y)%float; [reflexivity|].
    destruct (value x <=? value y)%float; reflexivity.
Qed.

Lemma sort_insert_by_value x l :
  sort_insert by_value_descending x l
  = match l with
    | [] => [x]
    | y :: l' =>
        if JS.lt (value x) (value y)
        then y :: sort_insert by_value_descending x l'
        else x :: y :: l'
    end.
Proof.
  destruct l as [|y l']; [reflexivity|]. cbn [sort_insert].
  rewrite SortCompare_by_value. destruct (JS.lt (value x) (value y)); reflexivity.
Qed.

Lemma sort_insert_perm x l : Permutation (sort_insert by_value_descending x l) (x :: l).
Proof.
  induction l as [|y l IH]; [reflexivity|]. rewrite sort_insert_by_value.
  destruct (JS.lt (value x) (value y)); [|reflexivity].
  rewrite IH. apply perm_swap.
Qed.

Lemma Array_sort_perm l : Permutation (Array_sort by_value_descending l) l.
Proof.
  induction l as [|x l IH]; [reflexivity|]. cbn [Array_sort].
  rewrite sort_insert_perm. constructor. exact IH.
Qed.

(** Words of one value keep their order: inserting [x] moves it only
    past words of strictly greater value. *)
Lemma sort_insert_ties v x l :
  List.filter (fun w => (value w =? v)%float) (sort_insert by_value_descending x l)
  = List.filter (fun w => (value w =? v)%float) (x :: l).
Proof.
  induction l as [|y l IH]; [reflexivity|]. rewrite sort_insert_by_value.
  destruct (JS.lt (value x) (value y)) eqn:Hlt; [|reflexivity].
  cbn [List.filter] in *. rewrite IH.
  destruct (value x =? v)%float eqn:Hx; [|reflexivity].
  rewrite (eqb_lt_apart _ _ _ Hx Hlt). reflexivity.
Qed.

Lemma Array_sort_ties v l :
  List.filter (fun w => (value w =? v)%float) (Array_sort by_value_descending l)
  = List.filter (fun w => (value w =? v)%float) l.
Proof.
  induction l as [|x l IH]; [reflexivity|]. cbn [Array_sort].
  rewrite sort_insert_ties. cbn [List.filter]. rewrite IH. reflexivity.
Qed.

Lemma sort_insert_sorted x l :
  PrimFloat.is_nan (value x) = false ->
  Forall (fun w => PrimFloat.is_nan (value w) = false) l ->
  StronglySorted (fun a b => JS.ge (value a) (value b) = true) l ->
  StronglySorted (fun a b => JS.ge (value a) (value b) = true)
    (sort_insert by_value_descending x l).
Proof.
  intros Hx Hl Hs. induction Hs as [|y l Hs IH Hall]; [repeat constructor|].
  rewrite sort_insert_by_value. inversion Hl as [|? ? Hy Hl']; subst.
  destruct (JS.lt (value x) (value y)) eqn:Hlt.
  - constructor; [apply IH; exact Hl'|].
    rewrite sort_insert_perm. constructor; [|exact Hall].
    unfold JS.ge. apply lt_le. exact Hlt.
  - assert (JS.ge (value x) (value y) = true) as Hxy by (apply le_total; assumption).
    constructor; [constructor; assumption|].
    constructor; [exact Hxy|].
    eapply Forall_impl; [exact Hall|]. intros z Hz. cbn beta in *. unfold JS.ge in *.
    exact (le_trans _ _ _ Hz Hxy).
Qed.

Lemma Array_sort_sorted l :
  Forall (fun w => PrimFloat.is_nan (value w) = false) l ->
  StronglySorted (fun a b => JS.ge (value a) (value b) = true)
    (Array_sort by_value_descending l).
Proof.
  induction 1 as [|x l Hx Hl IH]; [constructor|]. cbn [Array_sort].
  apply sort_insert_sorted; [exact Hx| |exact IH].
  rewrite Array_sort_perm. exact Hl.
Qed.

Lemma Array_slice0_take {A} (l : list A) endIndex :
  0 <= endIndex -> Array_slice0 endIndex l = take (Z.to_nat endIndex) l.
Proof.
  intros Hn. unfold Array_slice0.
  destruct (Z.ltb_spec endIndex 0) as [?|_]; [lia|].
  destruct (Z_le_gt_dec endIndex (Z.of_nat (length l))).
  - rewrite Z.min_l by lia. reflexivity.
  - rewrite Z.min_r, Nat2Z.id by lia. rewrite !take_ge by lia. reflexivity.
Qed.

Lemma StronglySorted_take {A} (R : A -> A -> Prop) n l :
  StronglySorted R l -> StronglySorted R (take n l).
Proof.
  intros Hs. revert n. induction Hs as [|x l Hs IH Hall]; intros [|n]; cbn; try constructor.
  - apply IH.
  - apply Forall_take. exact Hall.
Qed.

(** Claim C7. On a store in which [words] holds the list [ws], and for
    [maxWords >= 0], the selector returns a new array and leaves every
    array there was, [words] included, as it found it. The new array
    holds [min(ws.length, maxWords)] words: the first [maxWords] of the
    rearrangement of [ws] in which values descend (for values that are
    comparable, that is, not NaN) and words of one value stand in their
    original order. An empty input gives an empty result. *)
Theorem word_selector_contract (st : Store) (words : ArrayRef) (ws : list Word)
        (maxWords : Z) :
  st !! words = Some ws ->
  0 <= maxWords ->
  exists result st',
    store_sortedWords words maxWords st = Some (result, st')
    /\ st !! result = None
    /\ (forall a, is_Some (st !! a) -> st' !! a = st !! a)
    /\ st' !! words = Some ws
    /\ st' !! result = Some (sortedWords ws maxWords)
    /\ length (sortedWords ws maxWords) = Nat.min (length ws) (Z.to_nat maxWords)
    /\ (exists full,
          sortedWords ws maxWords = take (Z.to_nat maxWords) full
          /\ Permutation full ws
          /\ (forall v, List.filter (fun w => (value w =? v)%float) full
                        = List.filter (fun w => (value w =? v)%float) ws)
          /\ (Forall (fun w => PrimFloat.is_nan (value w) = false) ws ->
              StronglySorted (fun a b => JS.ge (value a) (value b) = true) full))
    /\ (Forall (fun w => PrimFloat.is_nan (value w) = false) ws ->
        StronglySorted (fun a b => JS.ge (value a) (value b) = true)
          (sortedWords ws maxWords))
    /\ (ws = [] -> sortedWords ws maxWords = []).
Proof.
  intros Hws Hmax.
  unfold store_sortedWords, store_concat, store_sort, store_slice0, store_alloc.
  rewrite Hws. cbn [mbind option_bind].
  set (copy := fresh (dom st)).
  assert (st !! copy = None) as Hcopy by (apply not_elem_of_dom, is_fresh).
  clearbody copy.
  rewrite lookup_insert_eq. cbn [mbind option_bind].
  rewrite lookup_insert_eq. cbn [mbind option_bind].
  set (st2 := <[copy := Array_sort by_value_descending ws]> (<[copy := ws]> st)).
  set (result := fresh (dom st2)).
  assert (st2 !! result = None) as Hresult by (apply not_elem_of_dom, is_fresh).
  clearbody result.
  assert (result <> copy) as Hrc.
  { intros Heq. rewrite Heq in Hresult. unfold st2 in Hresult.
    rewrite lookup_insert_eq in Hresult. discriminate. }
  assert (forall a, is_Some (st !! a) -> st2 !! a = st !! a) as Hkept.
  { intros a [x Ha]. unfold st2.
    assert (copy <> a) by (intros Heq; rewrite Heq, Ha in Hcopy; discriminate).
    rewrite !lookup_insert_ne by assumption. reflexivity. }
  assert (st !! result = None) as Hnew.
  { destruct (st !! result) eqn:Hr; [|reflexivity].
    rewrite <- (Hkept result) in Hr by (rewrite Hr; eauto). congruence. }
  fold (sortedWords ws maxWords).
  exists result, (<[result := sortedWords ws maxWords]> st2).
  split; [reflexivity|]. split; [exact Hnew|].
  assert (forall a, is_Some (st !! a) ->
                    <[result := sortedWords ws maxWords]> st2 !! a = st !! a) as Hkept'.
  { intros a Ha. rewrite lookup_insert_ne; [apply Hkept; exact Ha|].
    intros ->. rewrite Hnew in Ha. destruct Ha; discriminate. }
  split; [exact Hkept'|].
  split; [rewrite Hkept' by (rewrite Hws; eauto); exact Hws|].
  split; [apply lookup_insert_eq|].
  unfold sortedWords. rewrite Array_slice0_take by exact Hmax.
  split.
  { rewrite length_take, (Permutation_length (Array_sort_perm ws)). lia. }
  split.
  { exists (Array_sort by_value_descending ws).
    split; [reflexivity|]. split; [apply Array_sort_perm|].
    split; [intros v; apply Array_sort_ties|apply Array_sort_sorted]. }
  split.
  { intros Hnan. apply StronglySorted_take, Array_sort_sorted. exact Hnan. }
  intros ->. cbn. apply take_nil.
Qed.

Lemma word_selector_contract_witness :
  ({[ 7%nat := [word "b" 1%float; word "a" 10%float] ]} : Store) !! 7%nat
  = Some [word "b" 1%float; word "a" 10%float]
  /\ 0 <= 1
  /\ exists result st',
       store_sortedWords 7%nat 1 {[ 7%nat := [word "b" 1%float; word "a" 10%float] ]}
       = Some (result, st')
       /\ st' !! 7%nat = Some [word "b" 1%float; word "a" 10%float]
       /\ st' !! result = Some [word "a" 10%float].
Proof.
  split; [apply lookup_singleton_eq|]. split; [lia|].
  destruct (word_selector_contract {[ 7%nat := [word "b" 1%float; word "a" 10%float] ]}
              7%nat [word "b" 1%float; word "a" 10%float] 1
              (lookup_singleton_eq _ _) ltac:(lia))
    as (result & st' & Hrun & _ & _ & Hin & Hout & _).
  exists result, st'. split; [exact Hrun|]. split; [exact Hin|exact Hout].
Defined.
(** ** The default rotation *)

Lemma default_rotation_values (r : JS.number) :
  JS.le 0%float r = true -> JS.lt r 1%float = true ->
  In (default_rotation r)
     [(-90)%float; (-60)%float; (-30)%float; 0%float; 30%float; 60%float].
Proof.
  intros H0 H1.
  pose proof (truncate_below_six _ (times_six_below_six r H0 H1)) as Ht.
  unfold default_rotation, JS.double_tilde, JS.ToInt32.
  rewrite Z.mod_small by lia.
  destruct (Z.geb_spec (JS.truncate (r * 6)%float) (2 ^ 31)) as [?|_]; [lia|].
  assert (JS.truncate (r * 6)%float = 0 \/ JS.truncate (r * 6)%float = 1
          \/ JS.truncate (r * 6)%float = 2 \/ JS.truncate (r * 6)%float = 3
          \/ JS.truncate (r * 6)%float = 4 \/ JS.truncate (r * 6)%float = 5)
    as [-> | [-> | [-> | [-> | [-> | ->]]]]] by lia;
    vm_compute; auto 10.
Qed.

(** Claim C8. When no rotation strategy is configured, [rotateWord]
    makes one draw [r]; for [r] in [[0, 1)] the angle it returns,
    [(~~(r * 6) - 3) * 30], is one of -90, -60, -30, 0, 30 and 60. *)
Theorem default_rotation_is_one_of_six `{Collaborators} (o : Options) (g : Random) :
  rotations o = None ->
  JS.le 0%float (draws g (drawn g)) = true ->
  JS.lt (draws g (drawn g)) 1%float = true ->
  (rotateWord o g).1 = default_rotation (draws g (drawn g))
  /\ drawn (rotateWord o g).2 = S (drawn g)
  /\ In (rotateWord o g).1
        [(-90)%float; (-60)%float; (-30)%float; 0%float; 30%float; 60%float].
Proof.
  intros Hnone H0 H1. unfold rotateWord. rewrite Hnone. cbn.
  split; [reflexivity|]. split; [reflexivity|].
  apply default_rotation_values; assumption.
Qed.

Lemma default_rotation_is_one_of_six_witness :
  rotations (demo_options (4%float, 32%float)) = None
  /\ JS.le 0%float (draws alternating (drawn alternating)) = true
  /\ JS.lt (draws alternating (drawn alternating)) 1%float = true
  /\ (rotateWord (H := demo) (demo_options (4%float, 32%float)) alternating).1
     = (-90)%float.
Proof.
  split; [reflexivity|]. split; [reflexivity|]. split; [reflexivity|].
  destruct (default_rotation_is_one_of_six (H := demo) (demo_options (4%float, 32%float))
              alternating eq_refl eq_refl eq_refl) as (Hangle & _ & _).
  rewrite Hangle. reflexivity.
Defined.

(** Each of the six angles is reached. *)
Example default_rotation_reaches_all_six :
  map default_rotation [0%float; 0.2%float; 0.4%float; 0.5%float; 0.7%float; 0.9%float]
  = [(-90)%float; (-60)%float; (-30)%float; 0%float; 30%float; 60%float].
Proof. reflexivity. Qed.

(** The largest draw below one still gives sixty degrees. *)
Example default_rotation_at_the_top :
  default_rotation 0x1.fffffffffffffp-1%float = 60%float.
Proof. reflexivity. Qed.
(** ** The render scheduler *)

Section Scheduler.
Context `{Collaborators}.

(** *** The debounce interval *)

Lemma debounced_wait {Args Result} time (args : Args) (d : Debounced Args Result) :
  wait (debounced time args d).2 = wait d.
Proof. unfold debounced. destruct (timerId d); reflexivity. Qed.

Lemma timerExpired_wait {Args Result} time (d : Debounced Args Result) :
  wait (timerExpired time d).2 = wait d.
Proof.
  unfold timerExpired. destruct (shouldInvoke time d); [destruct (lastArgs d)|]; reflexivity.
Qed.

Lemma dispose_effect_reRender c : reRender (dispose_effect c) = reRender c.
Proof. unfold dispose_effect. destruct (effect_cleanup c); reflexivity. Qed.

Lemma step_keeps_interval c e w :
  debounce_interval c = Some w -> debounce_interval (step c e) = Some w.
Proof.
  unfold debounce_interval. destruct (reRender c) as [d|] eqn:Hd; [|discriminate].
  cbn. intros [= Hw]. destruct e as [p|ms| |rid cs g|]; cbn [step].
  - unfold render_component, useRef_reRender. rewrite Hd.
    destruct (selection p) as [sel|]; [|cbn; rewrite Hw; reflexivity].
    pose proof (debounced_wait (now (dispose_effect c)) (submission p sel) d) as Hk.
    destruct (debounced _ _ d) as [returned d']. cbn in *.
    f_equal. etransitivity; [exact Hk|exact Hw].
  - cbn. rewrite Hd. cbn. rewrite Hw. reflexivity.
  - unfold timer_fires. rewrite Hd.
    destruct (timerId d) as [due|]; [|rewrite Hd; cbn; rewrite Hw; reflexivity].
    destruct (due <=? now c); [|rewrite Hd; cbn; rewrite Hw; reflexivity].
    pose proof (timerExpired_wait (now c) d) as Hk.
    destruct (timerExpired (now c) d) as [[args|] d']; cbn in *;
      f_equal; (etransitivity; [exact Hk|exact Hw]).
  - cbn. rewrite Hd. cbn. rewrite Hw. reflexivity.
  - rewrite dispose_effect_reRender, Hd. cbn. rewrite Hw. reflexivity.
Qed.

Lemma steps_keep_interval c es w :
  debounce_interval c = Some w -> debounce_interval (steps c es) = Some w.
Proof.
  revert c. induction es as [|e es IH]; intros c Hc; [exact Hc|].
  cbn. apply IH, step_keeps_interval, Hc.
Qed.

(** Claim C10. The debounced pipeline that the component uses is the
    one built on its first render: whatever renders and other events
    follow, with whatever [options.renderDebounce], the debounce
    interval in use is the [renderDebounce] of the first render's
    merged options. *)
Theorem debounce_interval_is_that_of_the_first_render (first : Rendering)
        (later : list Event) :
  debounce_interval (steps mount (Renders first :: later))
  = Some (renderDebounce (mergedOptions (options first))).
Proof.
  cbn [steps foldl]. apply steps_keep_interval.
  unfold debounce_interval. cbn. unfold render_component. cbn.
  destruct (selection first); reflexivity.
Qed.

(** *** Cancellation *)

Lemma layout_stop_halts r :
  in_flight (layout_stop r) = None
  /\ rendered (layout_stop r) = rendered r
  /\ warnings (layout_stop r) = warnings r
  /\ results (layout_stop r) = results r.
Proof.
  unfold layout_stop, in_flight, rendered, warnings, results.
  destruct (run_layout r) as [h|] eqn:Hl; cbn; [|rewrite Hl; auto].
  rewrite !omap_app. cbn. rewrite !app_nil_r. auto.
Qed.

Lemma engine_completes_idle computedWords g r :
  in_flight r = None -> engine_completes computedWords g r = r.
Proof.
  unfold in_flight, engine_completes.
  destruct (run_layout r) as [h|]; [|reflexivity].
  destruct (cloud_state h); [discriminate|reflexivity|reflexivity].
Qed.

Lemma cleanup_keeps_halted r0 r : halted_as r0 r -> halted_as r0 (cleanup r).
Proof.
  intros (_ & Hr & Hw). unfold cleanup.
  destruct (layout_stop_halts r) as (Hf & Hr' & Hw' & _).
  repeat split; congruence.
Qed.

Lemma invoke_cleanup_keeps_halted c rid rid' r0 r :
  runs c !! rid = Some r -> halted_as r0 r ->
  exists r', runs (invoke_cleanup rid' c) !! rid = Some r' /\ halted_as r0 r'.
Proof.
  intros Hr Hh. cbn. destruct (decide (rid' = rid)) as [->|Hne].
  - rewrite list_lookup_alter_eq, Hr. eexists. split; [reflexivity|].
    apply cleanup_keeps_halted, Hh.
  - rewrite list_lookup_alter_ne by exact Hne. eauto.
Qed.

Lemma dispose_effect_keeps_halted c rid r0 r :
  runs c !! rid = Some r -> halted_as r0 r ->
  exists r', runs (dispose_effect c) !! rid = Some r' /\ halted_as r0 r'.
Proof.
  intros Hr Hh. unfold dispose_effect. destruct (effect_cleanup c) as [rid'|]; [|eauto].
  exact (invoke_cleanup_keeps_halted c rid rid' r0 r Hr Hh).
Qed.

Lemma step_keeps_halted c e rid r0 r :
  runs c !! rid = Some r -> halted_as r0 r ->
  exists r', runs (step c e) !! rid = Some r' /\ halted_as r0 r'.
Proof.
  intros Hr Hh. destruct e as [p|ms| |rid' cs g|]; cbn [step].
  - destruct (dispose_effect_keeps_halted c rid r0 r Hr Hh) as (r' & Hr' & Hh').
    exists r'. split; [|exact Hh']. unfold render_component.
    destruct (selection p); [|exact Hr'].
    destruct (debounced _ _ _). exact Hr'.
  - eauto.
  - unfold timer_fires. destruct (reRender c) as [d|]; [|eauto].
    destruct (timerId d) as [due|]; [|eauto]. destruct (due <=? now c); [|eauto].
    destruct (timerExpired (now c) d) as [[args|] d']; cbn; [|eauto].
    exists r. split; [apply lookup_app_l_Some; exact Hr|exact Hh].
  - cbn. destruct (decide (rid' = rid)) as [->|Hne].
    + rewrite list_lookup_alter_eq, Hr. exists r. split; [|exact Hh].
      cbn. f_equal. apply engine_completes_idle, Hh.
    + rewrite list_lookup_alter_ne by exact Hne. eauto.
  - exact (dispose_effect_keeps_halted c rid r0 r Hr Hh).
Qed.

Lemma steps_keep_halted c es rid r0 r :
  runs c !! rid = Some r -> halted_as r0 r ->
  exists r', runs (steps c es) !! rid = Some r' /\ halted_as r0 r'.
Proof.
  revert c r. induction es as [|e es IH]; intros c r Hr Hh; [eauto|].
  destruct (step_keeps_halted c e rid r0 r Hr Hh) as (r1 & Hr1 & Hh1).
  cbn. exact (IH (step c e) r1 Hr1 Hh1).
Qed.

(** Claim C3, as amended. Calling the function that a run of the
    pipeline returned stops the engine handle that run holds: whatever
    happens afterwards, that run has nothing in flight, the renderer is
    not called for it again and it emits no further warning. The call
    leaves the debounced function alone: a timer that was pending is
    still pending. *)
Theorem cleanup_halts_its_run (c : Wordcloud) (rid : RunId) (r : Run)
        (later : list Event) :
  runs c !! rid = Some r ->
  pending_timer (invoke_cleanup rid c) = pending_timer c
  /\ exists r',
       runs (steps (invoke_cleanup rid c) later) !! rid = Some r'
       /\ in_flight r' = None
       /\ rendered r' = rendered r
       /\ warnings r' = warnings r.
Proof.
  intros Hr. split; [reflexivity|].
  apply (steps_keep_halted (invoke_cleanup rid c) later rid r (cleanup r)).
  - cbn [invoke_cleanup runs]. rewrite list_lookup_alter_eq, Hr. reflexivity.
  - destruct (layout_stop_halts r) as (Hf & Hr' & Hw' & _). repeat split; assumption.
Qed.

(** *** Coalescing *)

Lemma steps_app c es1 es2 : steps c (es1 ++ es2) = steps (steps c es1) es2.
Proof. apply foldl_app. Qed.


Lemma dispose_effect_frame c :
  now (dispose_effect c) = now c
  /\ reRender (dispose_effect c) = reRender c
  /\ length (runs (dispose_effect c)) = length (runs c).
Proof.
  unfold dispose_effect. destruct (effect_cleanup c); cbn; [|auto].
  rewrite length_alter. auto.
Qed.




End Scheduler.

(** One word, as the engine places it on the first attempt of the demo
    component. *)
Example demo_first_attempt :
  map (fun w => (fw_text w, fw_rotate w, fw_size w))
      (formatWords (H := demo) (demo_options (4%float, 32%float))
         [word "a" 10%float] (4%float, 32%float) alternating).1
  = [("a"%string, (-90)%float, 32%float)].
Proof. reflexivity. Qed.

(** *** The scheduler at concrete inputs *)

(** Claim C3 fails on the code. The component renders; a tenth of a
    second later the pipeline runs and its layout is rendered. A second
    render submits new words: its effect is handed the function of the
    first run, and a timer is pending. The component unmounts, so React
    calls that function. The timer is still pending afterwards; it fires,
    the pipeline runs on the new words, and the renderer is called for
    the unmounted component. *)
Lemma cancellation_leaves_the_pending_run :
  let before :=
    steps (H := demo) mount
      [Renders (demo_rendering [word "a" 10%float] None); Elapses 100; TimerFires;
       EngineDone 0%nat (demo_placed [word "a" 10%float]) alternating;
       Renders (demo_rendering [word "b" 5%float] None)] in
  let cancelled := step before Unmounts in
  let after :=
    steps cancelled
      [Elapses 100; TimerFires;
       EngineDone 1%nat (demo_placed [word "b" 5%float]) alternating] in
  effect_cleanup before = Some 0%nat
  /\ pending_timer before = Some 200
  /\ (last ∘ run_effects (H := demo)) <$> (runs (H := demo) cancelled !! 0%nat)
     = Some (Some (LayoutStop 1))
  /\ pending_timer cancelled = Some 200
  /\ length (runs after) = 2%nat
  /\ rendered (H := demo) <$> (runs (H := demo) after !! 1%nat)
     = Some [demo_placed [word "b" 5%float]].
Proof. vm_compute. repeat split. Qed.

Lemma cleanup_halts_its_run_witness :
  let c :=
    steps (H := demo) mount
      [Renders (demo_rendering [word "a" 10%float] None); Elapses 100; TimerFires] in
  let r := pipeline (H := demo) tt (demo_options (4%float, 32%float))
             (defaultCallbacks (H := demo)) demo_size [word "a" 10%float] 100 in
  let later :=
    [EngineDone 0%nat (demo_placed [word "a" 10%float]) alternating; Elapses 1000] in
  runs c !! 0%nat = Some r
  /\ exists r',
       runs (steps (invoke_cleanup 0%nat c) later) !! 0%nat = Some r'
       /\ in_flight r' = None
       /\ rendered r' = []
       /\ warnings r' = [].
Proof.
  cbv zeta. split; [reflexivity|].
  match goal with
  | |- exists r', runs (steps (invoke_cleanup 0%nat ?c) ?later) !! 0%nat = Some r' /\ _ =>
      exact (proj2 (cleanup_halts_its_run (H := demo) c 0%nat
                      (pipeline (H := demo) tt (demo_options (4%float, 32%float))
                         (defaultCallbacks (H := demo)) demo_size [word "a" 10%float] 100)
                      later eq_refl))
  end.
Defined.


(** The second render asks for half a second; the timer is still set a
    tenth of a second ahead, the interval of the first render. *)
Example later_interval_is_ignored :
  pending_timer
    (steps (H := demo) mount
       [Renders (demo_rendering [word "a" 10%float] None); Elapses 100; TimerFires;
        Elapses 900; Renders (demo_rendering [word "a" 10%float] (Some 500))])
  = Some 1100.
Proof. reflexivity. Qed.

(** ** Further properties of a run *)

Section LoopInvariants.
Context `{Collaborators}.

Lemma stopped_app r (es : list Effect) :
  omap (fun e => match e with LayoutStop a => Some a | _ => None end) (run_effects r ++ es)
  = stopped r
    ++ omap (fun e => match e with LayoutStop a => Some a | _ => None end) es.
Proof. unfold stopped. apply omap_app. Qed.

(** Property X4. Every attempt that is retried has [layout.stop()] called
    on its handle, once, before the next cloud is created; the handle of
    the attempt that is accepted is not stopped by the loop. *)
Theorem every_retried_attempt_is_stopped engine selection mergedOptions
        mergedCallbacks size words maxWords :
  exists finished earlier accepted,
    layout_loop 11 engine
      (pipeline selection mergedOptions mergedCallbacks size words maxWords)
    = Some finished
    /\ attempts_made finished = earlier ++ [accepted]
    /\ stopped finished = map number_of earlier.
Proof.
  destruct (run_finishes engine selection mergedOptions mergedCallbacks size words maxWords)
    as (fin & Hloop & _).
  set (I := fun r : Run =>
              exists earlier current,
                attempts_made r = earlier ++ [current]
                /\ stopped r = map number_of earlier
                /\ forall h, in_flight r = Some h -> cloud_attempts h = number_of current).
  assert (I fin) as (earlier & accepted & Hmade & Hstopped & _).
  { apply (layout_loop_invariant I engine) with (fuel := 11%nat)
      (r := pipeline selection mergedOptions mergedCallbacks size words maxWords);
      [|clear fin Hloop|exact Hloop].
    - intros r h (earlier & current & Hmade & Hstopped & Hcur) Hf. cbv zeta.
      destruct (engine (cloud_attempts h) (cloud_words h) (run_random r)) as [c g].
      cbn [fst snd].
      destruct (engine_completes_step r h c g Hf) as (_ & _ & _ & _ & _ & Heff & Hfl & _).
      destruct (projections_step r h c g Hf) as (Hm & _).
      cbv zeta in Heff, Hfl, Hm. unfold I, stopped. rewrite Heff, stopped_app, Hm, Hfl.
      unfold after_result. specialize (Hcur h Hf).
      destruct (retries (run_sortedWords r) (cloud_attempts h) c).
      + exists (earlier ++ [current]), (cloud_attempts h + 1, shrunk_bounds (cloud_fontSizes h),
                 (formatWords (run_options r) (run_sortedWords r)
                    (shrunk_bounds (cloud_fontSizes h)) g).1).
        rewrite Hmade. split; [reflexivity|]. split.
        * rewrite Hstopped, map_app. cbn [map]. rewrite <- Hcur.
          f_equal. destruct (cloud_attempts h =? MAX_LAYOUT_ATTEMPTS); reflexivity.
        * intros h' [= <-]. reflexivity.
      + exists earlier, current. rewrite app_nil_r. split; [exact Hmade|]. split.
        * cbn. rewrite app_nil_r. exact Hstopped.
        * discriminate.
    - destruct (pipeline_start selection mergedOptions mergedCallbacks size words maxWords)
        as (_ & _ & _ & Heff & Hfl).
      cbv zeta in Heff, Hfl. unfold I, attempts_made, stopped. rewrite Heff, Hfl. cbn.
      eexists [], _. split; [reflexivity|].
      split; [reflexivity|]. intros h [= <-]. reflexivity. }
  exists fin, earlier, accepted. auto.
Qed.
End LoopInvariants.

(** ** Font-size bounds of any kind

    What the shrink step makes of starting bounds that are out of
    order, not positive, or not numbers at all. *)

Lemma is_nan_true x : PrimFloat.is_nan x = true <-> Prim2SF x = S754_nan.
Proof.
  pose proof (is_nan_false x) as Hf.
  destruct (PrimFloat.is_nan x); split; intros Hx.
  - destruct (Prim2SF x); try reflexivity;
      exfalso; assert (true = false) by (apply Hf; discriminate); discriminate.
  - reflexivity.
  - discriminate.
  - exfalso. apply (proj1 Hf eq_refl). exact Hx.
Qed.

(** Multiplying by [SHRINK_FACTOR] gives NaN for NaN only. *)
Lemma shrink_keeps_numbers (x : float) :
  PrimFloat.is_nan x = false -> PrimFloat.is_nan (x * SHRINK_FACTOR)%float = false.
Proof.
  unfold SHRINK_FACTOR. rewrite !is_nan_false, FloatAxioms.mul_spec, Prim2SF_shrink.
  pose proof (Prim2SF_valid x) as Hv.
  destruct (Prim2SF x) as [s|s| |s m e]; try (intros _; simpl; congruence); [congruence|].
  intros _.
  apply valid_finite in Hv as [Hcan Hemax].
  pose proof (digits2_pos_bounds m) as [Hdlo Hdhi].
  unfold SF64mul, SFmul. rewrite xorb_false_r.
  set (P := Z.pos (m * 8556839292003942)).
  assert (P = Z.pos m * 8556839292003942) as HP by reflexivity.
  clearbody P.
  assert (2 ^ 52 <= P) as HPlo by lia.
  assert (Z.pos (digits2_pos m) = 53 -> 105 <= Zdigits2 P) as Hd53.
  { intros Hd. rewrite Hd in *.
    destruct (Zdigits2_bounds P ltac:(lia)) as (_ & Hhi & _).
    destruct (Z_le_gt_dec 105 (Zdigits2 P)); [lia|exfalso].
    assert (2 ^ Zdigits2 P <= 2 ^ 104) by (apply Z.pow_le_mono_r; lia). lia. }
  assert (0 < Zdigits2 P) as HdP by (apply Zdigits2_bounds; lia).
  pose proof (binary_round_aux_shift s P (e + -53) ltac:(lia)) as Hr.
  cbv zeta in Hr. rewrite fexp_eq in Hr.
  assert (0 < Z.max (Zdigits2 P + (e + -53) - 53) (-1074) - (e + -53)) as Hn.
  { destruct (Z.eq_dec (Z.pos (digits2_pos m)) 53) as [Hd|Hd]; [specialize (Hd53 Hd)|]; lia. }
  destruct (Hr Hn) as (m1 & Hm1 & ->). clear Hr.
  assert (0 <= m1).
  { assert (0 <= P / 2 ^ (Z.max (Zdigits2 P + (e + -53) - 53) (-1074) - (e + -53)))
      by (apply Z.div_pos; lia).
    destruct Hm1 as [->|[-> _]]; lia. }
  destruct (m1 <? 2 ^ 53); apply rounded_not_nan; lia.
Qed.

Lemma shrink_keeps_NaN (x : float) :
  PrimFloat.is_nan x = true -> PrimFloat.is_nan (x * SHRINK_FACTOR)%float = true.
Proof.
  rewrite !is_nan_true, FloatAxioms.mul_spec. intros ->. reflexivity.
Qed.

Lemma Math_max_NaN a b :
  PrimFloat.is_nan a = true \/ PrimFloat.is_nan b = true ->
  PrimFloat.is_nan (JS.Math_max a b) = true.
Proof.
  unfold JS.Math_max. intros [-> | ->]; rewrite ?orb_true_r; reflexivity.
Qed.

(** One shrink step puts any two numbers in order, above one. *)
Lemma shrunk_numbers_floored b :
  PrimFloat.is_nan b.1 = false -> PrimFloat.is_nan b.2 = false ->
  floored (shrunk_bounds b).
Proof.
  intros H1 H2. unfold floored, shrunk_bounds. cbn [fst snd].
  pose proof (shrink_keeps_numbers b.1 H1) as Hn1.
  pose proof (shrink_keeps_numbers b.2 H2) as Hn2.
  unfold SHRINK_FACTOR in *.
  destruct (Math_max_spec (b.1 * 0.95)%float 1%float Hn1 eq_refl) as (_ & _ & Hone).
  split; [exact Hone|].
  destruct (le_not_nan _ _ Hone) as [_ Hnm].
  destruct (Math_max_spec (b.2 * 0.95)%float _ Hn2 Hnm) as (_ & _ & Hge). exact Hge.
Qed.

Lemma shrunk_NaN b :
  (PrimFloat.is_nan b.1 = true ->
   PrimFloat.is_nan (shrunk_bounds b).1 = true /\ PrimFloat.is_nan (shrunk_bounds b).2 = true)
  /\ (PrimFloat.is_nan b.2 = true -> PrimFloat.is_nan (shrunk_bounds b).2 = true).
Proof.
  unfold shrunk_bounds. cbn [fst snd]. split.
  - intros Hb.
    assert (PrimFloat.is_nan (JS.Math_max (b.1 * 0.95)%float 1%float) = true) as Hmin
      by (apply Math_max_NaN; left; exact (shrink_keeps_NaN _ Hb)).
    split; [exact Hmin|]. apply Math_max_NaN. right. exact Hmin.
  - intros Hb. apply Math_max_NaN. left. exact (shrink_keeps_NaN _ Hb).
Qed.

(** A property of bounds that the shrink step keeps holds of every
    attempt once it holds of one. *)
Lemma bounds_chain (P : MinMaxPair -> Prop) l :
  (forall b, P b -> P (shrunk_bounds b)) ->
  Sorted next_attempt l ->
  forall first, head l = Some first -> P (bounds_of first) ->
  Forall P (map bounds_of l).
Proof.
  intros Hkeep. induction l as [|x l IH]; intros Hs first Hhd HP; [constructor|].
  injection Hhd as ->. cbn [map]. constructor; [exact HP|].
  apply Sorted_inv in Hs as [Hs Hrel].
  destruct l as [|y l]; [constructor|].
  inversion Hrel as [|? ? [_ Hb]]; subst.
  apply (IH Hs y eq_refl). rewrite Hb. apply Hkeep. exact HP.
Qed.

(** *** Retries make progress *)

Lemma Prim2SF_infinity : Prim2SF infinity = S754_infinity false.
Proof. reflexivity. Qed.

(** A finite number that is at least one gets strictly smaller when
    multiplied by [SHRINK_FACTOR], rounding included. *)
Lemma shrink_lt (x : float) :
  (1 <=? x)%float = true -> (x <? infinity)%float = true -> (x * 0.95 <? x)%float = true.
Proof.
  rewrite FloatAxioms.leb_spec, !FloatAxioms.ltb_spec, FloatAxioms.mul_spec, Prim2SF_one,
    Prim2SF_shrink, Prim2SF_infinity.
  pose proof (Prim2SF_valid x) as Hv.
  destruct (Prim2SF x) as [[]|[]| |[] m e]; try easy.
  rewrite SFleb_finite_pos. intros Hone _.
  apply valid_finite in Hv as [Hcan Hemax].
  pose proof (digits2_pos_bounds m) as [Hdlo Hdhi].
  assert (Z.pos (digits2_pos m) = 53) as Hd by lia.
  rewrite Hd in *. clear Hcan.
  assert (2 ^ 52 <= Z.pos m) as Hmlo by lia.
  unfold SF64mul, SFmul. cbn [xorb].
  set (P := Z.pos (m * 8556839292003942)).
  assert (P = Z.pos m * 8556839292003942) as HP by reflexivity.
  assert (2 ^ 104 <= P < 2 ^ 106) as HPb by lia.
  clearbody P.
  destruct (Z_lt_le_dec P (2 ^ 105)) as [Hsmall|Hbig].
  - (* 105 digits: the exponent drops by one, or the mantissa is rounded up to 2^52 *)
    assert (Zdigits2 P = 105) as HdP by (apply Zdigits2_unique; lia).
    pose proof (binary_round_aux_shift false P (e + -53) ltac:(lia)) as Hr.
    cbv zeta in Hr. rewrite HdP, fexp_eq in Hr.
    replace (Z.max (105 + (e + -53) - 53) (-1074)) with (e - 1) in Hr by lia.
    replace (e - 1 - (e + -53)) with 52 in Hr by lia.
    destruct (Hr ltac:(lia)) as (m1 & Hm1 & ->). clear Hr.
    assert (2 ^ 52 <= P / 2 ^ 52 < 2 ^ 53) as Hq.
    { split; [apply Z.div_le_lower_bound; lia|apply Z.div_lt_upper_bound; lia]. }
    destruct (Z.ltb_spec m1 (2 ^ 53)) as [Hfits|Hcarry].
    + rewrite rounded_finite by lia. apply SFltb_finite_pos. lia.
    + rewrite rounded_finite by lia. apply SFltb_finite_pos.
      rewrite Z2Pos.id by lia. right. split; [lia|].
      pose proof (Z.mul_div_le P (2 ^ 52) ltac:(lia)) as Hfloor. lia.
  - (* 106 digits: the exponent stays, the mantissa is about 0.95 times the old one *)
    assert (Zdigits2 P = 106) as HdP by (apply Zdigits2_unique; lia).
    pose proof (binary_round_aux_shift false P (e + -53) ltac:(lia)) as Hr.
    cbv zeta in Hr. rewrite HdP, fexp_eq in Hr.
    replace (Z.max (106 + (e + -53) - 53) (-1074)) with e in Hr by lia.
    replace (e - (e + -53)) with 53 in Hr by lia.
    destruct (Hr ltac:(lia)) as (m1 & Hm1 & ->). clear Hr.
    assert (2 ^ 52 <= P / 2 ^ 53 < Z.pos m - 1) as Hq.
    { split; [apply Z.div_le_lower_bound; lia|apply Z.div_lt_upper_bound; lia]. }
    destruct (Z.ltb_spec m1 (2 ^ 53)); [|lia].
    rewrite rounded_finite by lia. apply SFltb_finite_pos.
    rewrite Z2Pos.id by lia. lia.
Qed.

Lemma SFleb_SFltb_trans x y z : SFleb x y = true -> SFltb y z = true -> SFltb x z = true.
Proof.
  unfold SFltb, SFleb. by_cases x; by_cases y; by_cases z; simpl; try congruence; order_cases.
Qed.

Lemma le_lt_trans x y z : JS.le x y = true -> JS.lt y z = true -> JS.lt x z = true.
Proof.
  unfold JS.lt, JS.le. rewrite !FloatAxioms.ltb_spec, FloatAxioms.leb_spec.
  apply SFleb_SFltb_trans.
Qed.

Lemma shrunk_strictly b :
  floored b -> JS.lt b.2 infinity = true ->
  strictly_shrinking b (shrunk_bounds b).
Proof.
  intros [Hone Hle] Hfin. unfold strictly_shrinking, shrunk_bounds. cbn [fst snd].
  pose proof (le_trans _ _ _ Hone Hle) as Hone2.
  pose proof (shrink_lt b.1 Hone (le_lt_trans _ _ _ Hle Hfin)) as Hs1.
  pose proof (shrink_lt b.2 Hone2 Hfin) as Hs2.
  destruct (lt_not_nan _ _ Hs1) as [Hn1 _]. destruct (lt_not_nan _ _ Hs2) as [Hn2 _].
  destruct (Math_max_spec (b.1 * 0.95)%float 1%float Hn1 eq_refl) as (Hcase & _ & Hge).
  destruct (le_not_nan _ _ Hge) as [_ Hnm].
  split.
  - intros Habove. destruct Hcase as [->| ->]; assumption.
  - intros Habove.
    destruct (Math_max_spec (b.2 * 0.95)%float _ Hn2 Hnm) as ([->| ->] & _ & _);
      [exact Hs2|].
    destruct Hcase as [->| ->]; [|exact Habove].
    exact (lt_le_trans _ _ _ Hs1 Hle).
Qed.

(** A relation that the shrink step establishes, under an invariant it
    keeps, holds between the bounds of consecutive attempts. *)
Lemma relation_chain (P : MinMaxPair -> Prop) (R : MinMaxPair -> MinMaxPair -> Prop) l :
  (forall b, P b -> P (shrunk_bounds b) /\ R b (shrunk_bounds b)) ->
  Sorted next_attempt l ->
  forall first, head l = Some first -> P (bounds_of first) ->
  Sorted R (map bounds_of l).
Proof.
  intros Hkeep. induction l as [|x l IH]; intros Hs first Hhd HP; [constructor|].
  injection Hhd as ->. cbn [map]. apply Sorted_inv in Hs as [Hs Hrel].
  destruct l as [|y l]; [repeat constructor|].
  inversion Hrel as [|? ? [_ Hb]]; subst. destruct (Hkeep _ HP) as [HP' HR].
  constructor.
  - apply (IH Hs y eq_refl). rewrite Hb. exact HP'.
  - cbn [map]. constructor. rewrite Hb. exact HR.
Qed.

Section BoundsOfARun.
Context `{Collaborators}.

(** The attempts of a finished run: the first with the configured
    bounds, the second, if any, with those bounds shrunk once. *)
Lemma attempts_of_a_run engine selection mergedOptions mergedCallbacks size words maxWords :
  exists finished first rest,
    layout_loop 11 engine
      (pipeline selection mergedOptions mergedCallbacks size words maxWords)
    = Some finished
    /\ attempts_made finished = first :: rest
    /\ bounds_of first = fontSizes mergedOptions
    /\ Sorted next_attempt rest
    /\ forall second, head rest = Some second ->
                      bounds_of second = shrunk_bounds (fontSizes mergedOptions).
Proof.
  destruct (run_finishes engine selection mergedOptions mergedCallbacks size words maxWords)
    as (fin & Hloop & Hok & _ & Hopt & _).
  destruct Hok as (earlier & current & _ & _ & _ & Hsorted & (first & Hhd & _ & Hb) & _).
  rewrite Hopt in Hb.
  destruct (attempts_made fin) as [|a rest] eqn:Hmade; [discriminate|].
  injection Hhd as ->.
  exists fin, first, rest. split; [exact Hloop|]. split; [exact Hmade|]. split; [exact Hb|].
  apply Sorted_inv in Hsorted as [Hs Hrel]. split; [exact Hs|].
  intros second Hsecond. destruct rest as [|b rest]; [discriminate|].
  injection Hsecond as ->. inversion Hrel as [|? ? [_ Hbb]]; subst.
  rewrite Hbb, Hb. reflexivity.
Qed.

(** Property X1. Whatever the two starting bounds are, as long as they are
    numbers (out of order, zero, negative or infinite ones included),
    every attempt after the first has bounds with [1 <= min <= max]. *)
Theorem retries_put_any_bounds_in_order engine selection mergedOptions
        mergedCallbacks size words maxWords :
  PrimFloat.is_nan (fontSizes mergedOptions).1 = false ->
  PrimFloat.is_nan (fontSizes mergedOptions).2 = false ->
  exists finished,
    layout_loop 11 engine
      (pipeline selection mergedOptions mergedCallbacks size words maxWords)
    = Some finished
    /\ Forall floored (tail (map bounds_of (attempts_made finished))).
Proof.
  intros Hmin Hmax.
  destruct (attempts_of_a_run engine selection mergedOptions mergedCallbacks size words maxWords)
    as (fin & first & rest & Hloop & Hmade & _ & Hs & Hsecond).
  exists fin. split; [exact Hloop|]. rewrite Hmade. cbn [map tail].
  destruct rest as [|second rest]; [constructor|].
  apply (bounds_chain floored (second :: rest)) with (first := second); auto.
  - intros b Hb. apply shrunk_floored; [exact (floored_positive b Hb)|exact (proj2 Hb)].
  - rewrite (Hsecond second eq_refl). apply shrunk_numbers_floored; assumption.
Qed.

(** Property X2. A bound that is NaN is never repaired: when the starting
    minimum is NaN, both bounds of every later attempt are NaN; when the
    starting maximum is NaN, the maximum of every attempt is. *)
Theorem a_NaN_bound_stays_NaN engine selection mergedOptions
        mergedCallbacks size words maxWords :
  PrimFloat.is_nan (fontSizes mergedOptions).1 = true
  \/ PrimFloat.is_nan (fontSizes mergedOptions).2 = true ->
  exists finished,
    layout_loop 11 engine
      (pipeline selection mergedOptions mergedCallbacks size words maxWords)
    = Some finished
    /\ let bounds := map bounds_of (attempts_made finished) in
       Forall (fun b => PrimFloat.is_nan b.2 = true) (tail bounds)
       /\ (PrimFloat.is_nan (fontSizes mergedOptions).1 = true ->
           Forall (fun b => PrimFloat.is_nan b.1 = true) bounds).
Proof.
  intros Hnan.
  destruct (attempts_of_a_run engine selection mergedOptions mergedCallbacks size words maxWords)
    as (fin & first & rest & Hloop & Hmade & Hfirst & Hs & Hsecond).
  exists fin. split; [exact Hloop|]. cbv zeta. rewrite Hmade. cbn [map tail]. split.
  - destruct rest as [|second rest]; [constructor|].
    apply (bounds_chain (fun b => PrimFloat.is_nan b.2 = true) (second :: rest))
      with (first := second); auto.
    + intros b. exact (proj2 (shrunk_NaN b)).
    + rewrite (Hsecond second eq_refl).
      destruct Hnan as [Hmin|Hmax];
        [exact (proj2 (proj1 (shrunk_NaN _) Hmin))|exact (proj2 (shrunk_NaN _) Hmax)].
  - intros Hmin. constructor; [rewrite Hfirst; exact Hmin|].
    destruct rest as [|second rest]; [constructor|].
    apply (bounds_chain (fun b => PrimFloat.is_nan b.1 = true) (second :: rest))
      with (first := second); auto.
    + intros b Hb. exact (proj1 (proj1 (shrunk_NaN b) Hb)).
    + rewrite (Hsecond second eq_refl). exact (proj1 (proj1 (shrunk_NaN _) Hmin)).
Qed.

(** Property X3. Retries make progress. From finite starting bounds with
    [1 <= min <= max], a bound that is above one is strictly smaller in
    the next attempt (in binary64, rounding included), so no two
    consecutive attempts are laid out on the same bounds unless both
    bounds have reached one. *)
Theorem every_retry_shrinks_the_bounds engine selection mergedOptions
        mergedCallbacks size words maxWords :
  JS.le 1%float (fontSizes mergedOptions).1 = true ->
  JS.le (fontSizes mergedOptions).1 (fontSizes mergedOptions).2 = true ->
  JS.lt (fontSizes mergedOptions).2 infinity = true ->
  exists finished,
    layout_loop 11 engine
      (pipeline selection mergedOptions mergedCallbacks size words maxWords)
    = Some finished
    /\ Sorted strictly_shrinking (map bounds_of (attempts_made finished)).
Proof.
  intros Hone Hle Hfin.
  destruct (run_finishes engine selection mergedOptions mergedCallbacks size words maxWords)
    as (fin & Hloop & Hok & _ & Hopt & _).
  exists fin. split; [exact Hloop|].
  destruct Hok as (earlier & current & _ & _ & _ & Hsorted & (first & Hhd & _ & Hb) & _).
  rewrite Hopt in Hb.
  apply (relation_chain (fun b => floored b /\ JS.lt b.2 infinity = true) strictly_shrinking
           _) with (first := first); auto.
  - intros b [Hfl Hf]. split; [split|].
    + apply shrunk_floored; [exact (floored_positive b Hfl)|exact (proj2 Hfl)].
    + destruct (shrunk_non_increasing b Hfl) as [_ Hmax].
      exact (le_lt_trans _ _ _ Hmax Hf).
    + apply shrunk_strictly; assumption.
  - rewrite Hb. split; [split|]; assumption.
Qed.
End BoundsOfARun.

(** From the inverted bounds [[32, 4]] the second attempt has
    [[30.4, 30.4]] (in binary64). *)
Lemma retries_put_any_bounds_in_order_witness :
  PrimFloat.is_nan 32%float = false
  /\ PrimFloat.is_nan 4%float = false
  /\ exists finished,
       layout_loop 11 never_places
         (pipeline (H := demo) tt (demo_options (32%float, 4%float))
            (defaultCallbacks (H := demo)) demo_size [word "a" 10%float] 100)
       = Some finished
       /\ Forall floored (tail (map bounds_of (attempts_made finished))).
Proof.
  split; [reflexivity|]. split; [reflexivity|].
  apply (retries_put_any_bounds_in_order (H := demo) never_places tt
           (demo_options (32%float, 4%float))); reflexivity.
Defined.

Lemma a_NaN_bound_stays_NaN_witness :
  (PrimFloat.is_nan PrimFloat.nan = true \/ PrimFloat.is_nan 32%float = true)
  /\ exists finished,
       layout_loop 11 never_places
         (pipeline (H := demo) tt (demo_options (PrimFloat.nan, 32%float))
            (defaultCallbacks (H := demo)) demo_size [word "a" 10%float] 100)
       = Some finished
       /\ let bounds := map bounds_of (attempts_made finished) in
          Forall (fun b => PrimFloat.is_nan b.2 = true) (tail bounds)
          /\ (PrimFloat.is_nan PrimFloat.nan = true ->
              Forall (fun b => PrimFloat.is_nan b.1 = true) bounds).
Proof.
  split; [left; reflexivity|].
  apply (a_NaN_bound_stays_NaN (H := demo) never_places tt
           (demo_options (PrimFloat.nan, 32%float))).
  left. reflexivity.
Defined.

Lemma every_retry_shrinks_the_bounds_witness :
  JS.le 1%float 4%float = true
  /\ JS.le 4%float 32%float = true
  /\ JS.lt 32%float infinity = true
  /\ exists finished,
       layout_loop 11 never_places
         (pipeline (H := demo) tt (demo_options (4%float, 32%float))
            (defaultCallbacks (H := demo)) demo_size [word "a" 10%float] 100)
       = Some finished
       /\ Sorted strictly_shrinking (map bounds_of (attempts_made finished)).
Proof.
  split; [reflexivity|]. split; [reflexivity|]. split; [reflexivity|].
  apply (every_retry_shrinks_the_bounds (H := demo) never_places tt
           (demo_options (4%float, 32%float))); reflexivity.
Defined.

(** ** The stream of rotations *)

Lemma unit_interval_advance n g : unit_interval g -> unit_interval (advance n g).
Proof. intros Hg k. exact (Hg k). Qed.

Section RotationStream.
Context `{Collaborators}.

Lemma rotateWord_default o g :
  default_rotation_in_use o ->
  rotateWord o g = (default_rotation (draws g (drawn g)), advance 1 g).
Proof.
  unfold default_rotation_in_use, rotateWord, random, advance.
  destruct (rotations o) as [n|]; [intros ->|intros _];
    rewrite Nat.add_1_r; reflexivity.
Qed.

Lemma format_each_stream o fontScale ws g :
  default_rotation_in_use o ->
  (format_each o fontScale ws g).2 = advance (length ws) g
  /\ map fw_rotate (format_each o fontScale ws g).1
     = map (fun i => default_rotation (draws g (drawn g + i)%nat)) (seq 0 (length ws))
  /\ map fw_text (format_each o fontScale ws g).1 = map text ws.
Proof.
  intros Ho. revert g. induction ws as [|d ws IH]; intros g.
  - cbn. unfold advance. rewrite Nat.add_0_r. destruct g; auto.
  - cbn [format_each]. rewrite (rotateWord_default o g Ho).
    destruct (IH (advance 1 g)) as (Hg & Hrot & Htext).
    destruct (format_each o fontScale ws (advance 1 g)) as [others g2].
    cbn [fst snd] in *. subst g2. split; [|split].
    + unfold advance. cbn [draws drawn length]. f_equal. lia.
    + cbn [map length seq formatted fw_rotate]. rewrite Nat.add_0_r. f_equal.
      rewrite Hrot, <- seq_shift, map_map. apply map_ext. intros i.
      unfold advance. cbn [draws drawn]. do 2 f_equal. lia.
    + cbn [map formatted fw_text]. f_equal. exact Htext.
Qed.

(** Property X5. With [rotations] left out, or given as [0], [-0] or [NaN]
    (all falsy), formatting [n] words makes exactly [n] draws from the
    generator, one per word and in the order of the words: the word at
    index [i] is rotated by the default rotation of the [i]-th next draw. *)
Theorem formatting_draws_once_per_word o ws fontSizes g :
  default_rotation_in_use o ->
  (formatWords o ws fontSizes g).2 = advance (length ws) g
  /\ map fw_rotate (formatWords o ws fontSizes g).1
     = map (fun i => default_rotation (draws g (drawn g + i)%nat)) (seq 0 (length ws))
  /\ map fw_text (formatWords o ws fontSizes g).1 = map text ws.
Proof. intros Ho. unfold formatWords. apply format_each_stream. exact Ho. Qed.

Lemma formatted_rotations_in_range o ws fontSizes g :
  default_rotation_in_use o -> unit_interval g ->
  Forall (fun w => In (fw_rotate w) six_angles) (formatWords o ws fontSizes g).1
  /\ unit_interval (formatWords o ws fontSizes g).2.
Proof.
  intros Ho Hg. destruct (format_each_stream o (getFontScale ws fontSizes (scale o)) ws g Ho)
    as (Hgen & Hrot & _).
  unfold formatWords. rewrite Hgen. split; [|apply unit_interval_advance; exact Hg].
  apply (proj1 (@List.Forall_map _ _ fw_rotate (fun a => In a six_angles) _)).
  rewrite Hrot. apply (proj2 (@List.Forall_map _ _ _ (fun a => In a six_angles) _)).
  apply List.Forall_forall. intros i _.
  apply default_rotation_values; apply Hg.
Qed.

(** Property X6. In a run that uses the default rotation function, on a
    generator whose draws lie in [[0, 1)] and with an engine that only
    draws from it, every word of every attempt is rotated by one of the
    six angles. *)
Theorem every_rotation_of_a_run_is_one_of_six (engine : Engine) selection mergedOptions
        mergedCallbacks size words maxWords :
  default_rotation_in_use mergedOptions ->
  (forall seed, unit_interval (seedrandom seed)) ->
  (forall attempts ws g, draws (engine attempts ws g).2 = draws g) ->
  exists finished,
    layout_loop 11 engine
      (pipeline selection mergedOptions mergedCallbacks size words maxWords)
    = Some finished
    /\ Forall (fun x => Forall (fun w => In (fw_rotate w) six_angles) (words_of x))
         (attempts_made finished).
Proof.
  intros Ho Hseed Hengine.
  destruct (run_finishes engine selection mergedOptions mergedCallbacks size words maxWords)
    as (fin & Hloop & _).
  exists fin. split; [exact Hloop|].
  set (I := fun r : Run =>
              default_rotation_in_use (run_options r)
              /\ unit_interval (run_random r)
              /\ Forall (fun x => Forall (fun w => In (fw_rotate w) six_angles) (words_of x))
                   (attempts_made r)).
  apply (layout_loop_invariant I engine) with (fuel := 11%nat)
    (r := pipeline selection mergedOptions mergedCallbacks size words maxWords);
    [|clear fin Hloop|exact Hloop].
  - intros r h (Hopt & Hg & Hall) Hf. cbv zeta.
    pose proof (Hengine (cloud_attempts h) (cloud_words h) (run_random r)) as Hdraws.
    destruct (engine (cloud_attempts h) (cloud_words h) (run_random r)) as [c g].
    cbn [fst snd] in *.
    assert (unit_interval g) as Hg' by (intros n; rewrite Hdraws; apply Hg).
    destruct (engine_completes_step r h c g Hf) as (_ & Ho' & _ & _ & _ & _ & _ & Hrand).
    destruct (projections_step r h c g Hf) as (Hm & _).
    cbv zeta in Ho', Hrand, Hm. unfold I. rewrite Ho', Hrand, Hm.
    destruct (formatted_rotations_in_range (run_options r) (run_sortedWords r)
                (shrunk_bounds (cloud_fontSizes h)) g Hopt Hg') as [Hin Hnext].
    split; [exact Hopt|].
    destruct (retries (run_sortedWords r) (cloud_attempts h) c).
    + split; [exact Hnext|]. apply Forall_app. split; [exact Hall|].
      constructor; [exact Hin|constructor].
    + split; [exact Hg'|]. rewrite app_nil_r. exact Hall.
  - destruct (pipeline_start selection mergedOptions mergedCallbacks size words maxWords)
      as (Hopt & _ & Hrand & Heff & _).
    cbv zeta in Hopt, Hrand, Heff. unfold I, attempts_made. rewrite Hopt, Hrand, Heff.
    assert (unit_interval (if deterministic mergedOptions
                           then seedrandom (Some "deterministic"%string)
                           else seedrandom None)) as Hg
      by (destruct (deterministic mergedOptions); apply Hseed).
    destruct (formatted_rotations_in_range mergedOptions (sortedWords words maxWords)
                (fontSizes mergedOptions) _ Ho Hg) as [Hin Hnext].
    split; [exact Ho|]. split; [exact Hnext|]. cbn. constructor; [exact Hin|constructor].
Qed.
End RotationStream.

Lemma alternating_unit_interval : unit_interval alternating.
Proof. intros n. cbn. destruct (Nat.even n); split; reflexivity. Qed.

(** [rotations: 0] is falsy: the two words get the default rotations
    of the draws [0] and [0.5]. *)
Lemma formatting_draws_once_per_word_witness :
  default_rotation_in_use (demo_rotations 0%float)
  /\ map fw_rotate
       (formatWords (H := demo) (demo_rotations 0%float)
          [word "a" 10%float; word "b" 1%float] (4%float, 32%float) alternating).1
     = [(-90)%float; 0%float]
  /\ drawn
       (formatWords (H := demo) (demo_rotations 0%float)
          [word "a" 10%float; word "b" 1%float] (4%float, 32%float) alternating).2
     = 2%nat.
Proof.
  assert (default_rotation_in_use (demo_rotations 0%float)) as Ho by reflexivity.
  split; [exact Ho|].
  destruct (formatting_draws_once_per_word (H := demo) (demo_rotations 0%float)
              [word "a" 10%float; word "b" 1%float] (4%float, 32%float) alternating Ho)
    as (Hgen & Hrot & _).
  rewrite Hgen, Hrot. split; reflexivity.
Defined.

Lemma every_rotation_of_a_run_is_one_of_six_witness :
  default_rotation_in_use (demo_options (4%float, 32%float))
  /\ (forall seed, unit_interval (seedrandom (Collaborators := demo) seed))
  /\ (forall attempts ws g, draws (never_places attempts ws g).2 = draws g)
  /\ exists finished,
       layout_loop 11 never_places
         (pipeline (H := demo) tt (demo_options (4%float, 32%float))
            (defaultCallbacks (H := demo)) demo_size
            [word "a" 10%float; word "b" 1%float] 100)
       = Some finished
       /\ Forall (fun x => Forall (fun w => In (fw_rotate w) six_angles) (words_of x))
            (attempts_made finished).
Proof.
  assert (default_rotation_in_use (demo_options (4%float, 32%float))) as Ho by exact I.
  assert (forall seed, unit_interval (seedrandom (Collaborators := demo) seed)) as Hseed
    by (intros seed; exact alternating_unit_interval).
  assert (forall attempts ws g, draws (never_places attempts ws g).2 = draws g) as Hengine
    by reflexivity.
  split; [exact Ho|]. split; [exact Hseed|]. split; [exact Hengine|].
  exact (every_rotation_of_a_run_is_one_of_six (H := demo) never_places tt
           (demo_options (4%float, 32%float)) (defaultCallbacks (H := demo)) demo_size
           [word "a" 10%float; word "b" 1%float] 100 Ho Hseed Hengine).
Defined.

(** ** Further properties of the word selector *)

Lemma SFleb_SFltb x y : SFleb y x = true -> SFltb x y = false.
Proof. unfold SFltb, SFleb. by_cases x; by_cases y; simpl; try congruence; order_cases. Qed.

Lemma ge_not_lt x y : JS.ge x y = true -> JS.lt x y = false.
Proof.
  unfold JS.ge, JS.lt. rewrite FloatAxioms.leb_spec, FloatAxioms.ltb_spec. apply SFleb_SFltb.
Qed.

Lemma StronglySorted_app_split {A} (R : A -> A -> Prop) l1 l2 :
  StronglySorted R (l1 ++ l2) -> Forall (fun a => Forall (R a) l2) l1.
Proof.
  induction l1 as [|a l1 IH]; intros Hs; [constructor|].
  cbn in Hs. apply StronglySorted_inv in Hs as [Hs Hall].
  constructor; [|exact (IH Hs)].
  apply Forall_app in Hall. exact (proj2 Hall).
Qed.

(** Sorting leaves a list alone that is in descending order already. *)
Lemma Array_sort_of_sorted l :
  StronglySorted (fun a b => JS.ge (value a) (value b) = true) l ->
  Array_sort by_value_descending l = l.
Proof.
  induction 1 as [|x l Hs IH Hall]; [reflexivity|].
  cbn [Array_sort]. rewrite IH, sort_insert_by_value.
  destruct l as [|y l']; [reflexivity|].
  inversion Hall as [|? ? Hxy _]; subst. rewrite (ge_not_lt _ _ Hxy). reflexivity.
Qed.

Lemma sortedWords_length ws maxWords :
  length (sortedWords ws maxWords) = slice0_length maxWords (length ws).
Proof.
  unfold sortedWords, Array_slice0, slice0_length. cbv zeta.
  rewrite length_take, (Permutation_length (Array_sort_perm ws)).
  destruct (Z.ltb_spec maxWords 0); lia.
Qed.

(** Property X7. The selector keeps the highest values. Of words whose
    values are numbers, and for any [maxWords] (a negative one counts from
    the back, as [slice] has it: [maxWords = -k] drops the [k] lowest
    words), the selected words and the words left out are together a
    rearrangement of the input, and no word left out has a value above
    that of a selected word. *)
Theorem selector_keeps_the_highest_values (ws : list Word) (maxWords : Z) :
  Forall not_NaN ws ->
  exists dropped,
    Permutation (sortedWords ws maxWords ++ dropped) ws
    /\ length (sortedWords ws maxWords) = slice0_length maxWords (length ws)
    /\ Forall (fun kept =>
                 Forall (fun left_out => JS.ge (value kept) (value left_out) = true) dropped)
         (sortedWords ws maxWords).
Proof.
  intros Hnum. pose proof (Array_sort_sorted ws Hnum) as Hsorted.
  pose proof (sortedWords_length ws maxWords) as Hlen.
  unfold sortedWords, Array_slice0 in *.
  set (n := Z.to_nat _) in *. set (full := Array_sort by_value_descending ws) in *.
  exists (drop n full). split; [|split].
  - rewrite take_drop. apply Array_sort_perm.
  - exact Hlen.
  - apply StronglySorted_app_split. rewrite take_drop. exact Hsorted.
Qed.

(** Property X8. Selecting from a selection: for words whose values are
    numbers, selecting [maxWords'] words from the [maxWords] selected ones
    gives what selecting the smaller number from the input gives;
    selecting again with the same [maxWords] changes nothing. *)
Theorem selecting_from_a_selection (ws : list Word) (maxWords maxWords' : Z) :
  Forall not_NaN ws ->
  0 <= maxWords -> 0 <= maxWords' ->
  sortedWords (sortedWords ws maxWords) maxWords' = sortedWords ws (Z.min maxWords maxWords').
Proof.
  intros Hnum Hm Hm'. pose proof (Array_sort_sorted ws Hnum) as Hsorted.
  unfold sortedWords. rewrite !Array_slice0_take by lia.
  rewrite Array_sort_of_sorted by (apply StronglySorted_take; exact Hsorted).
  rewrite take_take, Z2Nat.inj_min. f_equal. lia.
Qed.

Lemma selector_keeps_the_highest_values_witness :
  Forall not_NaN [word "b" 1%float; word "a" 10%float; word "c" 5%float]
  /\ exists dropped,
       Permutation
         (sortedWords [word "b" 1%float; word "a" 10%float; word "c" 5%float] (-1)
          ++ dropped)
         [word "b" 1%float; word "a" 10%float; word "c" 5%float]
       /\ length (sortedWords [word "b" 1%float; word "a" 10%float; word "c" 5%float] (-1))
          = 2%nat
       /\ Forall (fun kept =>
                    Forall (fun left_out => JS.ge (value kept) (value left_out) = true)
                      dropped)
            (sortedWords [word "b" 1%float; word "a" 10%float; word "c" 5%float] (-1)).
Proof.
  assert (Forall not_NaN [word "b" 1%float; word "a" 10%float; word "c" 5%float]) as Hnum
    by (repeat constructor).
  split; [exact Hnum|].
  exact (selector_keeps_the_highest_values
           [word "b" 1%float; word "a" 10%float; word "c" 5%float] (-1) Hnum).
Defined.

Lemma selecting_from_a_selection_witness :
  Forall not_NaN [word "b" 1%float; word "a" 10%float; word "c" 5%float]
  /\ 0 <= 2 /\ 0 <= 1
  /\ sortedWords (sortedWords [word "b" 1%float; word "a" 10%float; word "c" 5%float] 2) 1
     = [word "a" 10%float].
Proof.
  assert (Forall not_NaN [word "b" 1%float; word "a" 10%float; word "c" 5%float]) as Hnum
    by (repeat constructor).
  split; [exact Hnum|]. split; [lia|]. split; [lia|].
  rewrite (selecting_from_a_selection _ 2 1 Hnum ltac:(lia) ltac:(lia)). reflexivity.
Defined.

Section FirstAttempt.
Context `{Collaborators}.

Lemma format_each_texts o fontScale ws g :
  map fw_text (format_each o fontScale ws g).1 = map text ws.
Proof.
  pose proof (format_each_frame o fontScale ws g) as Hframe.
  apply (f_equal (map fw_text)) in Hframe. rewrite !map_map in Hframe.
  exact Hframe.
Qed.

(** Property X9. What the first attempt of a run is handed. The effect
    passes [maxWords] with its default of [100] and the merged options, so
    the run that a render starts lays out the selected words, in their
    order, on the configured bounds, [[4, 32]] unless [fontSizes] is
    given; with [maxWords] left out these are the [100] highest valued
    words, or all of them when there are fewer. *)
Theorem first_attempt_of_a_render (p : Rendering) (sel : Selection) :
  let r := run_pipeline (submission p sel) in
  exists h,
    in_flight r = Some h
    /\ attempts_made r = [(1, cloud_fontSizes h, cloud_words h)]
    /\ cloud_fontSizes h = default (4%float, 32%float) (fontSizes_opt (options p))
    /\ map fw_text (cloud_words h)
       = map text (sortedWords (words p) (default 100 (maxWords p)))
    /\ (maxWords p = None ->
        length (cloud_words h) = Nat.min 100 (length (words p))).
Proof.
  cbv zeta. unfold run_pipeline, submission. cbn [sub_selection sub_options sub_callbacks
    sub_size sub_words sub_maxWords].
  destruct (pipeline_start sel (mergedOptions (options p)) (mergedCallbacks (callbacks p))
              (size p) (words p) (default 100 (maxWords p))) as (_ & _ & _ & Heff & Hfl).
  cbv zeta in Heff, Hfl. eexists. split; [exact Hfl|].
  cbn [cloud_fontSizes cloud_words]. unfold attempts_made. rewrite Heff.
  split; [reflexivity|]. split; [reflexivity|].
  assert (map fw_text
            (formatWords (mergedOptions (options p))
               (sortedWords (words p) (default 100 (maxWords p)))
               (fontSizes (mergedOptions (options p)))
               (if deterministic (mergedOptions (options p))
                then seedrandom (Some "deterministic"%string) else seedrandom None)).1
          = map text (sortedWords (words p) (default 100 (maxWords p)))) as Htexts
    by apply format_each_texts.
  split; [exact Htexts|].
  intros Hnone. apply (f_equal (@length _)) in Htexts. rewrite !length_map in Htexts.
  rewrite Htexts, Hnone, sortedWords_length. unfold slice0_length, default.
  cbn [from_option id]. destruct (Z.ltb_spec 100 0); lia.
Qed.
End FirstAttempt.

(** ** Further properties of the render scheduler *)

Section SchedulerInvariants.
Context `{Collaborators}.

(** *** Renders without a selection *)

Lemma step_without_selection c e :
  pending_timer c = None -> finds_no_selection e ->
  pending_timer (step c e) = None /\ length (runs (step c e)) = length (runs c).
Proof.
  intros Hidle He. destruct (dispose_effect_frame c) as (_ & Hre & Hlen).
  destruct e as [p|ms| |rid computedWords g|]; cbn [step].
  - cbn in He. unfold render_component. rewrite He. cbn [runs]. split; [|exact Hlen].
    unfold pending_timer, useRef_reRender in *. cbn [reRender mbind option_bind].
    destruct (reRender c) as [d|]; [exact Hidle|reflexivity].
  - split; [exact Hidle|reflexivity].
  - unfold timer_fires. unfold pending_timer in Hidle.
    destruct (reRender c) as [d|] eqn:Hd; [|rewrite <- Hd in Hidle; auto].
    cbn in Hidle. rewrite Hidle. unfold pending_timer. rewrite Hd. auto.
  - split; [exact Hidle|]. cbn [runs]. apply length_alter.
  - unfold pending_timer in *. rewrite Hre. split; [exact Hidle|exact Hlen].
Qed.

(** Property X10. As long as no render finds a selection, the effect does
    nothing: no timer is armed and no run of the pipeline is started,
    whatever else happens and however much time passes. *)
Theorem nothing_is_scheduled_without_a_selection (c : Wordcloud) (es : list Event) :
  pending_timer c = None ->
  Forall finds_no_selection es ->
  pending_timer (steps c es) = None /\ length (runs (steps c es)) = length (runs c).
Proof.
  intros Hidle Hes. revert c Hidle.
  induction Hes as [|e es He _ IH]; intros c Hidle; [auto|].
  cbn [steps foldl]. destruct (step_without_selection c e Hidle He) as [Hidle' Hlen].
  destruct (IH _ Hidle') as [Hp Hl]. unfold steps in *. split; [exact Hp|lia].
Qed.

(** *** What the effect returns *)

Lemma latest_run_length c c' :
  length (runs c') = length (runs c) -> latest_run c' = latest_run c.
Proof. unfold latest_run. intros ->. reflexivity. Qed.

Lemma step_result_is_latest c e : result_is_latest c -> result_is_latest (step c e).
Proof.
  unfold result_is_latest. intros Hc.
  destruct (dispose_effect_frame c) as (_ & Hre & Hlen).
  destruct e as [p|ms| |rid computedWords g|]; cbn [step].
  - unfold render_component, useRef_reRender.
    assert (latest_run (dispose_effect c) = latest_run c) as Hl
      by (apply latest_run_length; exact Hlen).
    destruct (selection p) as [sel|].
    + destruct (reRender c) as [d|].
      * destruct (debounced (now (dispose_effect c)) (submission p sel) d) as [returned d'] eqn:Hd.
        cbn [reRender]. unfold latest_run in *. cbn [runs].
        unfold debounced in Hd. destruct (timerId d); injection Hd as <- <-; cbn [result];
          rewrite Hc; symmetry; exact Hl.
      * cbn [reRender debounced debounce timerId result]. unfold latest_run in *. cbn [runs].
        rewrite Hl. symmetry. exact Hc.
    + cbn [reRender]. unfold latest_run in *. cbn [runs].
      destruct (reRender c) as [d|]; cbn [debounce result]; rewrite Hl; auto.
  - exact Hc.
  - unfold timer_fires. destruct (reRender c) as [d|] eqn:Hd; [|rewrite Hd; exact Hc].
    destruct (timerId d) as [due|]; [|rewrite Hd; exact Hc].
    destruct (due <=? now c); [|rewrite Hd; exact Hc].
    unfold timerExpired.
    destruct (shouldInvoke (now c) d); [destruct (lastArgs d)|];
      cbn [reRender invoked result]; unfold latest_run; cbn [runs]; try exact Hc.
    rewrite length_app, Nat.add_1_r. reflexivity.
  - cbn [reRender]. unfold latest_run in *. cbn [runs]. rewrite length_alter. exact Hc.
  - rewrite Hre. unfold latest_run in *. rewrite Hlen. exact Hc.
Qed.

Lemma steps_result_is_latest c es : result_is_latest c -> result_is_latest (steps c es).
Proof.
  revert c. induction es as [|e es IH]; intros c Hc; [exact Hc|].
  cbn [steps foldl]. apply IH, step_result_is_latest, Hc.
Qed.

Lemma step_between_renders c e :
  between_renders e -> effect_cleanup (step c e) = effect_cleanup c.
Proof.
  destruct e as [p|ms| |rid computedWords g|]; cbn; try tauto; intros _.
  unfold timer_fires. destruct (reRender c) as [d|]; [|reflexivity].
  destruct (timerId d) as [due|]; [|reflexivity].
  destruct (due <=? now c); [|reflexivity].
  destruct (timerExpired (now c) d) as [[args|] d']; reflexivity.
Qed.

(** Property X11. The function that the effect of a render hands to React
    (to call before the next effect, or at unmount) is the debounced
    function's return value: the cleanup of the run that was the latest
    when the render happened, or nothing when no run had started yet. It
    is not the cleanup of the run that this render schedules, and it stays
    what it is, whatever runs start, until the next render or the unmount. *)
Theorem effect_returns_the_cleanup_of_an_earlier_run (es : list Event) (p : Rendering)
        (sel : Selection) (later : list Event) :
  selection p = Some sel ->
  Forall between_renders later ->
  effect_cleanup (steps mount (es ++ Renders p :: later)) = latest_run (steps mount es).
Proof.
  intros Hsel Hlater. rewrite steps_app.
  pose proof (steps_result_is_latest mount es eq_refl) as Hc.
  set (c := steps mount es) in *. clearbody c.
  change (steps c (Renders p :: later)) with (steps (step c (Renders p)) later).
  assert (effect_cleanup (step c (Renders p)) = latest_run c) as Hrender.
  { cbn [step]. unfold render_component, useRef_reRender. rewrite Hsel.
    unfold result_is_latest in Hc.
    destruct (reRender c) as [d|].
    - destruct (debounced (now (dispose_effect c)) (submission p sel) d) as [returned d'] eqn:Hd.
      cbn [effect_cleanup]. unfold debounced in Hd.
      destruct (timerId d); injection Hd as <- _; exact Hc.
    - cbn. symmetry. exact Hc. }
  rewrite <- Hrender. generalize (step c (Renders p)). clear Hrender.
  induction Hlater as [|e later He _ IH]; intros c'; [reflexivity|].
  cbn [steps foldl]. unfold steps in IH. rewrite IH. apply step_between_renders, He.
Qed.

(** *** Unmounting *)

Lemma pipeline_accepts selection mergedOptions mergedCallbacks size words maxWords
      computedWords g :
  length computedWords = length (sortedWords words maxWords) ->
  rendered (engine_completes computedWords g
              (pipeline selection mergedOptions mergedCallbacks size words maxWords))
  = [computedWords].
Proof.
  intros Hlen.
  destruct (pipeline_start selection mergedOptions mergedCallbacks size words maxWords)
    as (_ & Hsw & _ & Heff & Hfl).
  cbv zeta in Hsw, Heff, Hfl.
  destruct (proj2 (accepted_exactly_when _ _ computedWords g Hfl)) as [Hr _].
  { left. rewrite Hsw. exact Hlen. }
  rewrite Hr. unfold rendered. rewrite Heff. reflexivity.
Qed.

(** Property X12. The first run of a component is not stopped by
    unmounting it. Let the component render once and the debounce interval
    pass, so that the first run starts. The effect of that render returned
    nothing (no run had returned a cleanup then), so unmounting calls no
    cleanup and changes nothing; when the engine then places all the
    words, they are rendered, after the unmount. *)
Theorem unmounting_does_not_stop_the_first_run (p : Rendering) (sel : Selection)
        (quiet : Z) (computedWords : list PlacedWord) (g : Random) :
  selection p = Some sel ->
  0 <= quiet ->
  renderDebounce (mergedOptions (options p)) <= quiet ->
  length computedWords = length (sortedWords (words p) (default 100 (maxWords p))) ->
  let started := steps mount [Renders p; Elapses quiet; TimerFires] in
  runs started = [run_pipeline (submission p sel)]
  /\ step started Unmounts = started
  /\ rendered <$> (runs (steps started [Unmounts; EngineDone 0%nat computedWords g]) !! 0%nat)
     = Some [computedWords].
Proof.
  intros Hsel Hquiet Hwait Hlen. cbv zeta.
  set (w := renderDebounce (mergedOptions (options p))) in *.
  assert (steps mount [Renders p; Elapses quiet; TimerFires]
          = {| now := quiet;
               reRender :=
                 Some {| wait := w; lastArgs := None; result := Some 0%nat; timerId := None;
                         lastCallTime := Some 0; lastInvokeTime := quiet |};
               effect_cleanup := None;
               runs := [run_pipeline (submission p sel)] |}) as Hstarted.
  { unfold steps, mount. cbn [foldl step]. unfold render_component.
    cbn [dispose_effect effect_cleanup useRef_reRender reRender now runs]. rewrite Hsel.
    unfold debounced, debounce, setTimeout, timer_fires, timerExpired, shouldInvoke.
    cbn [timerId result wait now runs reRender effect_cleanup lastCallTime lastArgs].
    fold w. rewrite (Z.max_r 0 quiet), !Z.add_0_l by lia.
    replace (Z.max 0 w <=? quiet) with true by (symmetry; apply Z.leb_le; lia).
    replace (quiet - 0 >=? w) with true by (symmetry; apply Z.geb_le; lia).
    reflexivity. }
  rewrite Hstarted. split; [reflexivity|]. split; [reflexivity|].
  unfold steps. cbn [foldl step dispose_effect effect_cleanup runs alter list_alter
                     lookup list_lookup fmap option_fmap option_map].
  unfold run_pipeline, submission. cbn [sub_selection sub_options sub_callbacks sub_size
                                         sub_words sub_maxWords].
  rewrite pipeline_accepts by exact Hlen. reflexivity.
Qed.

(** *** No run before its time *)

Lemma step_now c e : now c <= now (step c e).
Proof.
  destruct e as [p|ms| |rid computedWords g|]; cbn [step now]; try lia.
  - unfold render_component. destruct (dispose_effect_frame c) as (Hnow & _).
    destruct (selection p) as [sel|]; [|cbn [now]; lia].
    destruct (debounced _ _ _) as [returned d']. cbn [now]. lia.
  - unfold timer_fires. destruct (reRender c) as [d|]; [|lia].
    destruct (timerId d) as [due|]; [|lia]. destruct (due <=? now c); [|lia].
    destruct (timerExpired (now c) d) as [[args|] d']; cbn [now]; lia.
  - destruct (dispose_effect_frame c) as (Hnow & _). lia.
Qed.

Lemma steps_now c es : now c <= now (steps c es).
Proof.
  revert c. induction es as [|e es IH]; intros c; [cbn; lia|].
  cbn [steps foldl]. pose proof (step_now c e). pose proof (IH (step c e)).
  unfold steps in *. lia.
Qed.

Lemma step_called_at w t c e :
  called_at w t c -> not_a_render e ->
  called_at w t (step c e)
  /\ (now (step c e) < t + w -> length (runs (step c e)) = length (runs c)).
Proof.
  intros (d & Hd & Hw & Hcalled & Hnow) He.
  destruct (dispose_effect_frame c) as (Hdnow & Hdre & Hdlen).
  destruct e as [p|ms| |rid computedWords g|]; cbn [step]; [destruct He|..].
  - split; [|reflexivity]. exists d. cbn [reRender now]. repeat split; auto; lia.
  - unfold timer_fires. rewrite Hd.
    destruct (timerId d) as [due|]; [|split; [exists d; auto|reflexivity]].
    destruct (due <=? now c); [|split; [exists d; auto|reflexivity]].
    unfold timerExpired, shouldInvoke. rewrite Hcalled, Hw.
    destruct ((now c - t >=? w) || (now c - t <? 0)) eqn:Hs.
    + destruct (lastArgs d) as [args|]; cbn [now runs reRender].
      * split; [eexists; cbn [invoked wait lastCallTime]; repeat split; auto|].
        intros Hearly. exfalso. apply orb_prop in Hs as [Hs|Hs];
          [apply Z.geb_le in Hs|apply Z.ltb_lt in Hs]; lia.
      * split; [eexists; cbn [wait lastCallTime]; repeat split; auto|reflexivity].
    + cbn [now runs reRender].
      split; [eexists; cbn [wait lastCallTime]; repeat split; auto|reflexivity].
  - split; [exists d; auto|]. intros _. cbn [runs]. apply length_alter.
  - split; [|intros _; exact Hdlen]. exists d. rewrite Hdre, Hdnow. auto.
Qed.

(** Property X13. The pipeline never runs sooner than the debounce
    interval after a render: whatever timers fire and whatever else
    happens after a render that found a selection, no run starts as long
    as less than the interval has passed since that render. *)
Theorem no_run_starts_within_the_interval (es : list Event) (p : Rendering)
        (sel : Selection) (later : list Event) (w : Z) :
  selection p = Some sel ->
  debounce_interval (steps mount (es ++ [Renders p])) = Some w ->
  Forall not_a_render later ->
  now (steps mount (es ++ Renders p :: later)) < now (steps mount es) + w ->
  length (runs (steps mount (es ++ Renders p :: later))) = length (runs (steps mount es)).
Proof.
  intros Hsel Hw Hlater. rewrite !steps_app in *.
  set (c := steps mount es) in *. clearbody c.
  change (steps c (Renders p :: later)) with (steps (step c (Renders p)) later).
  change (steps c [Renders p]) with (step c (Renders p)) in Hw.
  assert (called_at w (now c) (step c (Renders p))
          /\ length (runs (step c (Renders p))) = length (runs c)) as [Hcalled Hlen].
  { destruct (dispose_effect_frame c) as (Hdnow & Hdre & Hdlen).
    unfold debounce_interval in Hw. cbn [step] in *. unfold render_component in *.
    rewrite Hsel in *.
    destruct (debounced (now (dispose_effect c)) (submission p sel)
                (useRef_reRender (mergedOptions (options p)) c)) as [returned d'] eqn:Hd.
    cbn [reRender runs now fmap option_fmap option_map] in *. injection Hw as Hw.
    split; [|exact Hdlen]. exists d'. split; [reflexivity|]. split; [exact Hw|].
    rewrite Hdnow in *. split; [|cbn [now]; lia].
    unfold debounced in Hd. destruct (timerId _); injection Hd as _ <-; reflexivity. }
  rewrite <- Hlen. revert Hcalled. generalize (now c). generalize (step c (Renders p)).
  clear Hlen Hw c. induction Hlater as [|e later He _ IH]; intros c t Hcalled Hearly;
    [reflexivity|].
  cbn [steps foldl] in *. fold (steps (step c e) later) in *.
  destruct (step_called_at w t c e Hcalled He) as [Hcalled' Hsame].
  pose proof (steps_now (step c e) later) as Hmono.
  rewrite (IH _ t Hcalled' Hearly). apply Hsame. lia.
Qed.

(** *** Every render gets its run *)






End SchedulerInvariants.

Lemma nothing_is_scheduled_without_a_selection_witness :
  pending_timer (mount (H := demo)) = None
  /\ Forall (finds_no_selection (H := demo))
       [Renders demo_unselected; Elapses 500; TimerFires; Renders demo_unselected; Unmounts]
  /\ runs (steps (H := demo) mount
             [Renders demo_unselected; Elapses 500; TimerFires; Renders demo_unselected;
              Unmounts])
     = [].
Proof.
  assert (Forall (finds_no_selection (H := demo))
            [Renders demo_unselected; Elapses 500; TimerFires; Renders demo_unselected;
             Unmounts]) as Hes by (repeat constructor).
  split; [reflexivity|]. split; [exact Hes|].
  destruct (nothing_is_scheduled_without_a_selection (H := demo) mount _ eq_refl Hes)
    as [_ Hlen].
  exact (nil_length_inv _ Hlen).
Defined.

(** The second render of a component gets a cleanup for the first
    run, and keeps it when the second run starts. *)
Lemma effect_returns_the_cleanup_of_an_earlier_run_witness :
  selection (demo_rendering [word "b" 5%float] None) = Some tt
  /\ Forall (between_renders (H := demo)) [Elapses 100; TimerFires]
  /\ effect_cleanup
       (steps (H := demo) mount
          ([Renders (demo_rendering [word "a" 10%float] None); Elapses 100; TimerFires]
           ++ Renders (demo_rendering [word "b" 5%float] None) :: [Elapses 100; TimerFires]))
     = Some 0%nat.
Proof.
  assert (Forall (between_renders (H := demo)) [Elapses 100; TimerFires]) as Hlater
    by (repeat constructor).
  split; [reflexivity|]. split; [exact Hlater|].
  rewrite (effect_returns_the_cleanup_of_an_earlier_run (H := demo)
             [Renders (demo_rendering [word "a" 10%float] None); Elapses 100; TimerFires]
             (demo_rendering [word "b" 5%float] None) tt [Elapses 100; TimerFires]
             eq_refl Hlater).
  reflexivity.
Defined.

Lemma unmounting_does_not_stop_the_first_run_witness :
  selection (demo_rendering [word "a" 10%float] None) = Some tt
  /\ 0 <= 100
  /\ renderDebounce (mergedOptions (H := demo) (options (demo_rendering [word "a" 10%float] None)))
     <= 100
  /\ length (demo_placed [word "a" 10%float]) = 1%nat
  /\ rendered (H := demo)
     <$> (runs (steps (H := demo) mount
                  [Renders (demo_rendering [word "a" 10%float] None); Elapses 100; TimerFires;
                   Unmounts; EngineDone 0%nat (demo_placed [word "a" 10%float]) alternating])
          !! 0%nat)
     = Some [demo_placed [word "a" 10%float]].
Proof.
  split; [reflexivity|]. split; [lia|]. split; [cbn; lia|]. split; [reflexivity|].
  exact (proj2 (proj2 (unmounting_does_not_stop_the_first_run (H := demo)
                         (demo_rendering [word "a" 10%float] None) tt 100
                         (demo_placed [word "a" 10%float]) alternating
                         eq_refl ltac:(lia) ltac:(cbn; lia) eq_refl))).
Defined.

(** A render at time [0] with the interval [100]; the timer runs at
    [99] and finds the time not up. *)
Lemma no_run_starts_within_the_interval_witness :
  selection (demo_rendering [word "a" 10%float] None) = Some tt
  /\ debounce_interval
       (steps (H := demo) mount ([] ++ [Renders (demo_rendering [word "a" 10%float] None)]))
     = Some 100
  /\ Forall (not_a_render (H := demo)) [Elapses 99; TimerFires]
  /\ runs (steps (H := demo) mount
             ([] ++ Renders (demo_rendering [word "a" 10%float] None)
                    :: [Elapses 99; TimerFires]))
     = [].
Proof.
  assert (Forall (not_a_render (H := demo)) [Elapses 99; TimerFires]) as Hlater
    by (repeat constructor).
  split; [reflexivity|]. split; [reflexivity|]. split; [exact Hlater|].
  apply nil_length_inv.
  apply (no_run_starts_within_the_interval (H := demo) []
           (demo_rendering [word "a" 10%float] None) tt [Elapses 99; TimerFires] 100
           eq_refl eq_refl Hlater).
  vm_compute. reflexivity.
Defined.

(** ** Worked examples *)

Example descending_ex : descending 10%float 1%float = (-1)%float. Proof. reflexivity. Qed.
Example sortedWords_ex :
  sortedWords [Build_Word "b" 1%float []; Build_Word "a" 10%float []] 1
  = [Build_Word "a" 10%float []].
Proof. reflexivity. Qed.
Example default_rotation_ex : default_rotation 0.5%float = 0%float. Proof. reflexivity. Qed.
Example default_rotation_ex2 : default_rotation 0%float = (-90)%float. Proof. reflexivity. Qed.

(** A key of the word that the formatter sets itself does not survive
    the spread; any other key does. *)
Example formatted_rest_ex :
  fw_rest
    (formatted (demo_options (4%float, 32%float)) (fun _ => 4%float) 0%float
       {| text := "a"; value := 10%float;
          rest := [("padding", "9"); ("color", "red"); ("size", "1")]%string |})
  = [("color", "red")]%string.
Proof. reflexivity. Qed.
